(** * src/js/internal/webidl.js: WebIDL value conversion

    A shallow embedding of the converters of [webidl.js] and the
    properties of its integer, string, enum and sequence converters.

    JavaScript numbers are IEEE 754 binary64 values.  Every finite
    binary64 value is an integer multiple of the smallest subnormal
    [2^-1074], so a finite number is kept as that integer multiple:
    [Fin n] stands for [n * 2^-1074].  Negative zero, the infinities
    and NaN are separate constructors.  [is_double] singles out the
    multiples that fit a 53-bit significand; addition rounds to the
    nearest such value, ties to even, as the hardware does. *)

From Stdlib Require Import ZArith Lia Bool List.
From Stdlib Require Import DecimalString.
From stdpp Require Import base gmap strings list.

Local Open Scope Z_scope.

(** ** Numbers *)

Module Number.

(** [unit_scale] is the number 1 counted in units of [2^-1074]. *)
Definition unit_scale : Z := 2 ^ 1074.

(** [overflow_threshold] is [2^1024] counted in units of [2^-1074]. *)
Definition overflow_threshold : Z := 2 ^ 2098.

Inductive number : Type :=
| NaN
| PosInf
| NegInf
| NegZero
| Fin (n : Z).

Definition of_Z (k : Z) : number := Fin (k * unit_scale).

(** [units x] is the magnitude of a finite number in units of [2^-1074]. *)
Definition units (x : number) : Z :=
  match x with
  | Fin n => n
  | _ => 0
  end.

(** Number of low-order bits of [a] that do not fit a 53-bit significand. *)
Definition excess (a : Z) : Z := Z.max 0 (Z.log2 (Z.abs a) + 1 - 53).

Definition representable (n : Z) : bool :=
  (Z.abs n mod 2 ^ excess n =? 0) && (Z.abs n <? overflow_threshold).

Definition is_double (x : number) : bool :=
  match x with
  | Fin n => representable n
  | _ => true
  end.

(** Round an exact result to binary64: nearest, ties to even, overflow
    to infinity. *)
Definition round_double (n : Z) : number :=
  let a := Z.abs n in
  let k := excess a in
  let q := a / 2 ^ k in
  let r := a mod 2 ^ k in
  let q' :=
    if 2 * r <? 2 ^ k then q
    else if 2 ^ k <? 2 * r then q + 1
    else if Z.even q then q else q + 1 in
  let a' := q' * 2 ^ k in
  if overflow_threshold <=? a' then (if n <? 0 then NegInf else PosInf)
  else Fin (Z.sgn n * a').

(** Unary minus. *)
Definition neg (x : number) : number :=
  match x with
  | NaN => NaN
  | PosInf => NegInf
  | NegInf => PosInf
  | NegZero => Fin 0
  | Fin 0 => NegZero
  | Fin n => Fin (- n)
  end.

(** [x + y]. *)
Definition add (x y : number) : number :=
  match x, y with
  | NaN, _ | _, NaN => NaN
  | PosInf, NegInf | NegInf, PosInf => NaN
  | PosInf, _ | _, PosInf => PosInf
  | NegInf, _ | _, NegInf => NegInf
  | NegZero, NegZero => NegZero
  | NegZero, Fin n | Fin n, NegZero => Fin n
  | Fin a, Fin b => round_double (a + b)
  end.

(** [x - y]. *)
Definition sub (x y : number) : number := add x (neg y).

(** [x < y]. *)
Definition lt (x y : number) : bool :=
  match x, y with
  | NaN, _ | _, NaN => false
  | _, NegInf => false
  | NegInf, _ => true
  | PosInf, _ => false
  | _, PosInf => true
  | _, _ => units x <? units y
  end.

(** [x > y]. *)
Definition gt (x y : number) : bool := lt y x.

(** [x >= y]. *)
Definition ge (x y : number) : bool :=
  match x, y with
  | NaN, _ | _, NaN => false
  | _, _ => negb (lt x y)
  end.

(** [x === y] on numbers. *)
Definition strict_eq (x y : number) : bool :=
  match x, y with
  | NaN, _ | _, NaN => false
  | PosInf, PosInf | NegInf, NegInf => true
  | PosInf, _ | _, PosInf | NegInf, _ | _, NegInf => false
  | _, _ => units x =? units y
  end.

(** [x % y]: the remainder takes the sign of the dividend. *)
Definition rem (x y : number) : number :=
  match x, y with
  | NaN, _ | _, NaN => NaN
  | PosInf, _ | NegInf, _ => NaN
  | _, NegZero | _, Fin 0 => NaN
  | _, PosInf | _, NegInf => x
  | NegZero, _ => NegZero
  | Fin a, Fin b =>
      let r := Z.rem a b in
      if (r =? 0) && (a <? 0) then NegZero else Fin r
  end.

Definition NumberIsNaN (x : number) : bool :=
  match x with
  | NaN => true
  | _ => false
  end.

Definition MathTrunc (x : number) : number :=
  match x with
  | Fin n =>
      let i := Z.quot n unit_scale * unit_scale in
      if (i =? 0) && (n <? 0) then NegZero else Fin i
  | _ => x
  end.

Definition MathAbs (x : number) : number :=
  match x with
  | NaN => NaN
  | PosInf | NegInf => PosInf
  | NegZero => Fin 0
  | Fin n => Fin (Z.abs n)
  end.

Definition MathSign (x : number) : number :=
  match x with
  | NaN => NaN
  | PosInf => of_Z 1
  | NegInf => of_Z (-1)
  | NegZero => NegZero
  | Fin n => of_Z (Z.sgn n)
  end.

Definition MathMax (x y : number) : number :=
  match x, y with
  | NaN, _ | _, NaN => NaN
  | _, _ =>
      if lt x y then y
      else if lt y x then x
      else match x with NegZero => y | _ => x end
  end.

Definition MathMin (x y : number) : number :=
  match x, y with
  | NaN, _ | _, NaN => NaN
  | _, _ =>
      if lt x y then x
      else if lt y x then y
      else match x with NegZero => x | _ => y end
  end.

(** [MathPow(2, e)] for an integer exponent [e]. *)
Definition MathPow2 (e : Z) : number :=
  if 1023 <? e then PosInf
  else if e <? -1074 then Fin 0
  else Fin (2 ^ (e + 1074)).

(** ToInt32 of an integer. *)
Definition to_int32 (z : Z) : Z :=
  let m := z mod 2 ^ 32 in
  if 2 ^ 31 <=? m then m - 2 ^ 32 else m.

(** [a << count] on integers: the left operand goes through ToInt32, the
    shift count is taken modulo 32 and the result is a 32-bit signed
    integer. *)
Definition shl32 (a count : Z) : Z :=
  to_int32 (Z.shiftl (to_int32 a) (count mod 32)).

Definition NumberMAX_SAFE_INTEGER : number := of_Z (2 ^ 53 - 1).
Definition NumberMIN_SAFE_INTEGER : number := of_Z (- (2 ^ 53 - 1)).

End Number.

Export Number.

(** ** Arithmetic helpers of webidl.js *)

Definition integerPart : number -> number := MathTrunc.

Definition evenRound (x : number) : number :=
  let i := add (integerPart x) (of_Z 0) in
  let reminder := MathAbs (rem x (of_Z 1)) in
  let sign := MathSign i in
  if strict_eq reminder (Fin (unit_scale / 2)) then
    if strict_eq (rem i (of_Z 2)) (of_Z 0) then i else add i sign
  else
    let r := if lt reminder (Fin (unit_scale / 2)) then i else add i sign in
    if strict_eq r (of_Z 0) then of_Z 0 else r.

Definition pow2 (exponent : Z) : number :=
  if exponent <? 31 then of_Z (shl32 1 exponent)
  else if exponent =? 31 then of_Z 0x80000000
  else if exponent =? 32 then of_Z 0x100000000
  else MathPow2 exponent.

Definition modulo (x y : number) : number :=
  let r := rem x y in
  if strict_eq r (of_Z 0) then of_Z 0 else r.

(** ** Values, exceptions and completions *)

(** The outcome of evaluating JavaScript code: a value, or a thrown
    exception. *)
Inductive Completion (E A : Type) : Type :=
| Normal (a : A)
| Throw (e : E).

Arguments Normal {E A} a.
Arguments Throw {E A} e.

Inductive Hint : Type := HintNumber | HintString.

(** A property that is looked up and then called with [?.()]: it is
    [undefined] or [null], or not callable, or the call completes. *)
Inductive Method (R : Type) : Type :=
| Nullish
| NotCallable
| Call (r : R).

Arguments Nullish {R}.
Arguments NotCallable {R}.
Arguments Call {R} r.

(** The values of the language.  An object is given by what this module
    can observe of it: [typeof], property reads, conversion to a
    primitive, [V[Symbol.iterator]] and the successive evaluations of
    [iter.next] (the [k]-th evaluation for [k = 0, 1, ...]). *)
Inductive Value : Type :=
| Undefined
| Null
| Boolean (b : bool)
| Num (x : number)
| Str (s : string)
| Symbol (description : string)
| BigInt (z : Z)
| Object (o : ObjectRecord)
with ObjectRecord : Type :=
| MkObject
    (callable : bool)
    (get : string -> Completion Exception Value)
    (toPrimitive : Hint -> Completion Exception Value)
    (symbolIterator : Method (Completion Exception Value))
    (next : nat -> Method (Completion Exception Value))
with Exception : Type :=
| ERR_INVALID_ARG_VALUE (name : string) (actual : Value)
| ERR_INVALID_ARG_TYPE (name : string) (expected : string) (actual : Value)
| TypeError (message : string) (properties : gmap string string)
| HostTypeError (message : string)
| Thrown (v : Value).

Abbreviation Result := (Completion Exception).

(** A thrown exception propagates through the rest of the computation. *)
#[global] Instance Result_bind : MBind Result := fun A B k c =>
  match c with
  | Normal a => k a
  | Throw e => Throw e
  end.

Definition callable (o : ObjectRecord) : bool :=
  match o with MkObject c _ _ _ _ => c end.
Definition get (o : ObjectRecord) : string -> Result Value :=
  match o with MkObject _ g _ _ _ => g end.
Definition toPrimitive (o : ObjectRecord) : Hint -> Result Value :=
  match o with MkObject _ _ p _ _ => p end.
Definition symbolIterator (o : ObjectRecord) : Method (Result Value) :=
  match o with MkObject _ _ _ i _ => i end.
Definition next (o : ObjectRecord) : nat -> Method (Result Value) :=
  match o with MkObject _ _ _ _ n => n end.

(** Modelled from the spec: internal/errors is not part of the sources.
    [ERR_INVALID_ARG_VALUE] and [ERR_INVALID_ARG_TYPE] build errors whose
    kind code is their own name; an error built by [codedTypeError]
    carries the code it was assigned. *)
Definition error_code (e : Exception) : option string :=
  match e with
  | ERR_INVALID_ARG_VALUE _ _ => Some "ERR_INVALID_ARG_VALUE"%string
  | ERR_INVALID_ARG_TYPE _ _ _ => Some "ERR_INVALID_ARG_TYPE"%string
  | TypeError _ properties => properties !! "code"%string
  | HostTypeError _ => None
  | Thrown _ => None
  end.


(** ** Options *)

(** The options object read by the converters.  A field that is absent
    (or [undefined]) is [None]. *)
Record Options : Type := mkOptions {
  signed : option bool;
  enforceRange : option bool;
  clamp : option bool;
  context : option string;
  prefix : option string;
  code : option string;
}.

Definition kEmptyObject : Options :=
  {| signed := None; enforceRange := None; clamp := None;
     context := None; prefix := None; code := None |}.

Definition typeof (V : Value) : string :=
  match V with
  | Undefined => "undefined"
  | Null => "object"
  | Boolean _ => "boolean"
  | Num _ => "number"
  | Str _ => "string"
  | Symbol _ => "symbol"
  | BigInt _ => "bigint"
  | Object o => if callable o then "function" else "object"
  end.

Definition converters_any (V : Value) : Value := V.

(** ** Conversions provided by the host *)

Section Host.

(** Parsing a string as a number and printing a number are the host's. *)
Variable StringToNumber : string -> number.
Variable NumberToString : number -> string.

Definition ToNumberPrimitive (V : Value) : Result number :=
  match V with
  | Undefined => Normal NaN
  | Null => Normal (of_Z 0)
  | Boolean b => Normal (of_Z (if b then 1 else 0))
  | Num x => Normal x
  | Str s => Normal (StringToNumber s)
  | Symbol _ => Throw (HostTypeError "Cannot convert a Symbol value to a number")
  | BigInt _ => Throw (HostTypeError "Cannot convert a BigInt value to a number")
  | Object _ => Throw (HostTypeError "Cannot convert object to primitive value")
  end.

(** [+V]. *)
Definition ToNumber (V : Value) : Result number :=
  match V with
  | Object o => p ← toPrimitive o HintNumber; ToNumberPrimitive p
  | _ => ToNumberPrimitive V
  end.

Definition ToStringPrimitive (V : Value) : Result string :=
  match V with
  | Undefined => Normal "undefined"%string
  | Null => Normal "null"%string
  | Boolean b => Normal (if b then "true" else "false")%string
  | Num x => Normal (NumberToString x)
  | Str s => Normal s
  | Symbol _ => Throw (HostTypeError "Cannot convert a Symbol value to a string")
  | BigInt z => Normal (NilEmpty.string_of_int (Z.to_int z))
  | Object _ => Throw (HostTypeError "Cannot convert object to primitive value")
  end.

(** [String(V)]. *)
Definition StringOf (V : Value) : Result string :=
  match V with
  | Symbol description => Normal ("Symbol(" +:+ description +:+ ")")
  | Object o => p ← toPrimitive o HintString; ToStringPrimitive p
  | _ => ToStringPrimitive V
  end.

(** ** convertToInt *)

(** Steps 1 to 3 of [convertToInt]: the bounds of the target type. *)
Definition bounds (bitLength : Z) (signed : bool) : number * number :=
  if bitLength =? 64 then
    (if negb signed then of_Z 0 else NumberMIN_SAFE_INTEGER,
     NumberMAX_SAFE_INTEGER)
  else if negb signed then
    (of_Z 0, sub (pow2 bitLength) (of_Z 1))
  else
    (neg (pow2 (bitLength - 1)), sub (pow2 (bitLength - 1)) (of_Z 1)).

Definition convertToInt (name : string) (value : Value) (bitLength : Z)
    (options : Options) : Result number :=
  let signed := default false (signed options) in
  let enforceRange := default false (enforceRange options) in
  let clamp := default false (clamp options) in
  let '(lowerBound, upperBound) := bounds bitLength signed in
  x ← ToNumber value;
  let x := if strict_eq x (of_Z 0) then of_Z 0 else x in
  if enforceRange then
    if NumberIsNaN x || strict_eq x PosInf || strict_eq x NegInf then
      Throw (ERR_INVALID_ARG_VALUE name (Num x))
    else
      let x := integerPart x in
      if lt x lowerBound || gt x upperBound then
        Throw (ERR_INVALID_ARG_VALUE name (Num x))
      else Normal x
  else if clamp && negb (NumberIsNaN x) then
    let x := MathMin (MathMax x lowerBound) upperBound in
    let x := evenRound x in
    Normal x
  else if NumberIsNaN x || strict_eq x (of_Z 0) || strict_eq x PosInf
          || strict_eq x NegInf then
    Normal (of_Z 0)
  else
    let x := integerPart x in
    let x := modulo x (pow2 bitLength) in
    if signed && ge x (pow2 (bitLength - 1)) then
      Normal (sub x (pow2 bitLength))
    else Normal x.

(** ** Scalar converters *)

Definition converters_DOMString (V : Value) : Result string :=
  if String.eqb (typeof V) "symbol" then
    Throw (ERR_INVALID_ARG_VALUE "value" V)
  else StringOf V.

(** ** Exceptions raised by the converters *)

Definition codedTypeError (message : string)
    (errorProperties : gmap string string) : Exception :=
  TypeError message errorProperties.

(** A string is truthy when it is not empty. *)
Definition truthy (s : string) : bool := negb (String.eqb s "").

Definition makeException (message : string) (opts : Options) : Exception :=
  let prefix :=
    match prefix opts with
    | Some p => if truthy p then p +:+ ": " else ""
    | None => ""
    end in
  let context :=
    match context opts with
    | Some c => if (String.length c =? 0)%nat then "" else c +:+ " "
    | None => "Value" +:+ " "
    end in
  codedTypeError (prefix +:+ context +:+ message)
    {[ "code"%string :=
         match code opts with
         | Some c => if truthy c then c else "ERR_INVALID_ARG_TYPE"
         | None => "ERR_INVALID_ARG_TYPE"
         end ]}.

(** ** Enum converter *)

Definition set_code (opts : Options) (c : string) : Options :=
  {| signed := signed opts; enforceRange := enforceRange opts;
     clamp := clamp opts; context := context opts; prefix := prefix opts;
     code := Some c |}.

Definition createEnumConverter (name : string) (values : list string)
    : Value -> Options -> Result string :=
  let E : gset string := list_to_set values in
  fun V opts =>
    S ← StringOf V;
    if bool_decide (S ∈ E) then Normal S
    else
      Throw (makeException
               ("value '" +:+ S +:+ "' is not a valid enum value of type "
                  +:+ name +:+ ".")
               (set_code opts "ERR_INVALID_ARG_VALUE")).

(** ** Classification of values *)

Definition type (V : Value) : string :=
  match V with
  | Null => "Null"
  | _ =>
      let t := typeof V in
      if String.eqb t "undefined" then "Undefined"
      else if String.eqb t "boolean" then "Boolean"
      else if String.eqb t "number" then "Number"
      else if String.eqb t "string" then "String"
      else if String.eqb t "symbol" then "Symbol"
      else if String.eqb t "bigint" then "BigInt"
      else "Object"
  end.

(** ** Sequence converter *)

(** [V?.[SymbolIterator]?.()].  Only objects reach this point. *)
Definition callSymbolIterator (V : Value) : Result Value :=
  match V with
  | Object o =>
      match symbolIterator o with
      | Nullish => Normal Undefined
      | NotCallable => Throw (HostTypeError "V[Symbol.iterator] is not a function")
      | Call r => r
      end
  | _ => Normal Undefined
  end.

(** [iter?.next?.()], evaluated for the [k]-th time.  A primitive has no
    [next] property. *)
Definition callNext (iter : Value) (k : nat) : Result Value :=
  match iter with
  | Object o =>
      match next o k with
      | Nullish => Normal Undefined
      | NotCallable => Throw (HostTypeError "iter.next is not a function")
      | Call r => r
      end
  | _ => Normal Undefined
  end.

(** [res.key] for the keys [done] and [value]: reading a property of
    [null] or [undefined] throws, a primitive has neither property. *)
Definition getProperty (res : Value) (key : string) : Result Value :=
  match res with
  | Undefined | Null =>
      Throw (HostTypeError "Cannot read properties of null or undefined")
  | Object o => get o key
  | _ => Normal Undefined
  end.

Definition decimal (n : nat) : string := NilEmpty.string_of_uint (Nat.to_uint n).

(** The options object built for the element at index [length]. *)
Definition elementOptions (opts : Options) (length : nat) : Options :=
  {| signed := signed opts; enforceRange := enforceRange opts;
     clamp := clamp opts;
     context :=
       Some (match context opts with Some c => c | None => "undefined" end
               +:+ "[" +:+ decimal length +:+ "]");
     prefix := prefix opts; code := code opts |}.

Section Sequence.

Context {T : Type}.
Variable converter : Value -> Options -> Result T.

(** The [while (true)] loop.  [k] counts the evaluations of [iter.next]
    so far.  [None] means that the loop has not finished within [fuel]
    iterations. *)
Fixpoint sequenceLoop (fuel : nat) (iter : Value) (opts : Options)
    (array : list T) (k : nat) : option (Result (list T)) :=
  match fuel with
  | O => None
  | S fuel =>
      match callNext iter k with
      | Throw e => Some (Throw e)
      | Normal Undefined =>
          Some (Throw (makeException "can not be converted to sequence." opts))
      | Normal res =>
          match getProperty res "done" with
          | Throw e => Some (Throw e)
          | Normal (Boolean true) => Some (Normal array)
          | Normal _ =>
              match getProperty res "value" with
              | Throw e => Some (Throw e)
              | Normal v =>
                  match converter v (elementOptions opts (length array)) with
                  | Throw e => Some (Throw e)
                  | Normal val =>
                      sequenceLoop fuel iter opts (array ++ [val]) (S k)
                  end
              end
          end
      end
  end.

Definition createSequenceConverter (fuel : nat) (V : Value) (opts : Options)
    : option (Result (list T)) :=
  if negb (String.eqb (type V) "Object") then
    Some (Throw (makeException "can not be converted to sequence." opts))
  else
    match callSymbolIterator V with
    | Throw e => Some (Throw e)
    | Normal Undefined =>
        Some (Throw (makeException "can not be converted to sequence." opts))
    | Normal iter => sequenceLoop fuel iter opts [] 0
    end.

End Sequence.

(** ** Interface converter *)

(** [ObjectPrototypeIsPrototypeOf(I, V)], whether [I] is on the prototype
    chain of [V], is the host's. *)
Variable ObjectPrototypeIsPrototypeOf : Value -> Value -> bool.

Definition createInterfaceConverter (name : string) (I : Value)
    : Value -> Options -> Result Value :=
  fun V opts =>
    if ObjectPrototypeIsPrototypeOf I V then Normal V
    else
      Throw (ERR_INVALID_ARG_TYPE
               (match context opts with Some c => c | None => "value" end)
               name V).

End Host.

(** ** A host to run the converters on concrete inputs

    [StringToNumber] reads strings of decimal digits (the empty string
    is 0) and takes every other string as not numeric; [NumberToString]
    prints integers in decimal.  The inputs used below stay within
    these cases. *)

Module SampleHost.

Definition StringToNumber (s : string) : number :=
  match NilEmpty.uint_of_string s with
  | Some d => round_double (Z.of_nat (Nat.of_uint d) * unit_scale)
  | None => NaN
  end.

Definition NumberToString (x : number) : string :=
  match x with
  | NaN => "NaN"
  | PosInf => "Infinity"
  | NegInf => "-Infinity"
  | NegZero => "0"
  | Fin n => NilEmpty.string_of_int (Z.to_int (n / unit_scale))
  end.

(** An object with the given properties that is not iterable. *)
Definition plainObject (properties : string -> Value) : Value :=
  Object (MkObject false (fun key => Normal (properties key))
            (fun _ => Normal (Str "[object Object]"))
            Nullish (fun _ => Nullish)).

(** The iterator result [{ done: true }]. *)
Definition doneResult : Value :=
  plainObject (fun key => if String.eqb key "done" then Boolean true else Undefined).

(** The iterator result [{ value: v, done: false }]. *)
Definition valueResult (v : Value) : Value :=
  plainObject (fun key =>
    if String.eqb key "done" then Boolean false
    else if String.eqb key "value" then v else Undefined).

(** An iterator whose [next()] returns the given results in turn, then
    [last] for ever. *)
Definition iteratorOf (results : list Value) (last : Value) : Value :=
  Object (MkObject false (fun _ => Normal Undefined)
            (fun _ => Normal (Str "[object Object]"))
            Nullish
            (fun k => Call (Normal (nth k results last)))).

(** An iterable whose [Symbol.iterator] method returns [iter]. *)
Definition iterable (iter : Value) : Value :=
  Object (MkObject false (fun _ => Normal Undefined)
            (fun _ => Normal (Str "[object Object]"))
            (Call (Normal iter)) (fun _ => Nullish)).

End SampleHost.

(** ** Definitions used to state the properties *)



(** The [i]-th iteration of the loop goes on to the next one: [next()]
    returns something other than [undefined], its [done] is not [true]
    and the element converts. *)
Definition stepAdvances {T : Type} (converter : Value -> Options -> Result T)
    (iter : Value) (opts : Options) (i : nat) : Prop :=
  exists res d v val,
    callNext iter i = Normal res /\ res <> Undefined /\
    getProperty res "done" = Normal d /\ d <> Boolean true /\
    getProperty res "value" = Normal v /\
    converter v (elementOptions opts i) = Normal val.

(** The loop of the sequence converter with the calls of the element
    converter logged: next to the outcome of [sequenceLoop], the
    arguments [(v, o)] of every call [converter(v, o)] that the loop
    makes, in the order of the calls.  A call that throws is logged as
    well, and so are the calls made before the [fuel] runs out. *)
Fixpoint sequenceLoopCalls {T : Type}
    (converter : Value -> Options -> Result T) (fuel : nat) (iter : Value)
    (opts : Options) (array : list T) (k : nat)
    : list (Value * Options) * option (Result (list T)) :=
  match fuel with
  | O => ([], None)
  | S fuel =>
      match callNext iter k with
      | Throw e => ([], Some (Throw e))
      | Normal Undefined =>
          ([], Some (Throw (makeException "can not be converted to sequence." opts)))
      | Normal res =>
          match getProperty res "done" with
          | Throw e => ([], Some (Throw e))
          | Normal (Boolean true) => ([], Some (Normal array))
          | Normal _ =>
              match getProperty res "value" with
              | Throw e => ([], Some (Throw e))
              | Normal v =>
                  match converter v (elementOptions opts (length array)) with
                  | Throw e =>
                      ([(v, elementOptions opts (length array))], Some (Throw e))
                  | Normal val =>
                      let rest :=
                        sequenceLoopCalls converter fuel iter opts
                          (array ++ [val]) (S k) in
                      ((v, elementOptions opts (length array)) :: fst rest,
                       snd rest)
                  end
              end
          end
      end
  end.

(** The sequence converter with the calls of the element converter
    logged. *)
Definition createSequenceConverterCalls {T : Type}
    (converter : Value -> Options -> Result T) (fuel : nat) (V : Value)
    (opts : Options) : list (Value * Options) * option (Result (list T)) :=
  if negb (String.eqb (type V) "Object") then
    ([], Some (Throw (makeException "can not be converted to sequence." opts)))
  else
    match callSymbolIterator V with
    | Throw e => ([], Some (Throw e))
    | Normal Undefined =>
        ([], Some (Throw (makeException "can not be converted to sequence." opts)))
    | Normal iter => sequenceLoopCalls converter fuel iter opts [] 0
    end.


(** The options [{ signed: true }]. *)
Definition signedOptions : Options :=
  {| signed := Some true; enforceRange := None; clamp := None;
     context := None; prefix := None; code := None |}.

(** The options [{ clamp: true }]. *)
Definition clampOptions : Options :=
  {| signed := None; enforceRange := None; clamp := Some true;
     context := None; prefix := None; code := None |}.

(** The options [{ enforceRange: true }]. *)
Definition enforceRangeOptions : Options :=
  {| signed := None; enforceRange := Some true; clamp := None;
     context := None; prefix := None; code := None |}.

Definition finite (x : number) : bool :=
  match x with
  | NegZero | Fin _ => true
  | _ => false
  end.

(** Wrapping the integer [t] to [b] bits: the remainder [r] of [t] by
    [2^b], moved down by [2^b] for a signed conversion when it lies in
    the upper half. *)
Definition wrap (signed : bool) (b t : Z) : Z :=
  let r := Z.rem t (2 ^ b) in
  if signed && (2 ^ (b - 1) <=? r) then r - 2 ^ b else r.

(** The bounds of the target type, as integers. *)
Definition lowerBoundZ (bitLength : Z) (signed : bool) : Z :=
  if bitLength =? 64 then (if signed then - (2 ^ 53 - 1) else 0)
  else if signed then - 2 ^ (bitLength - 1) else 0.

Definition upperBoundZ (bitLength : Z) (signed : bool) : Z :=
  if bitLength =? 64 then 2 ^ 53 - 1
  else if signed then 2 ^ (bitLength - 1) - 1 else 2 ^ bitLength - 1.

(** The [i]-th evaluation of [next()] yields the element [v]: the result
    is not [undefined], its [done] is not [true] and its [value] is [v]. *)
Definition stepYields (iter : Value) (i : nat) (v : Value) : Prop :=
  exists res d,
    callNext iter i = Normal res /\ res <> Undefined /\
    getProperty res "done" = Normal d /\ d <> Boolean true /\
    getProperty res "value" = Normal v.

(** The [i]-th evaluation of [next()] ends the iteration: the result is
    not [undefined] and its [done] is [true]. *)
Definition stepDone (iter : Value) (i : nat) : Prop :=
  exists res,
    callNext iter i = Normal res /\ res <> Undefined /\
    getProperty res "done" = Normal (Boolean true).

(** From step [i] on the iterator yields the elements [vs], which the
    element converter turns into [ws], each with the options of its
    index. *)
Fixpoint runsFrom {T : Type} (converter : Value -> Options -> Result T)
    (iter : Value) (opts : Options) (i : nat) (vs : list Value)
    (ws : list T) : Prop :=
  match vs, ws with
  | [], [] => True
  | v :: vs', w :: ws' =>
      stepYields iter i v /\
      converter v (elementOptions opts i) = Normal w /\
      runsFrom converter iter opts (S i) vs' ws'
  | _, _ => False
  end.

(** From step [i] on the iterator yields the elements [vs]. *)
Fixpoint yieldsFrom (iter : Value) (i : nat) (vs : list Value) : Prop :=
  match vs with
  | [] => True
  | v :: vs' => stepYields iter i v /\ yieldsFrom iter (S i) vs'
  end.

(** The [i]-th iteration of the loop raises [e]: in [next()], in reading
    [done] or [value], or in the element converter. *)
Definition stepFails {T : Type} (converter : Value -> Options -> Result T)
    (iter : Value) (opts : Options) (i : nat) (e : Exception) : Prop :=
  callNext iter i = Throw e \/
  exists res,
    callNext iter i = Normal res /\ res <> Undefined /\
    (getProperty res "done" = Throw e \/
     exists d,
       getProperty res "done" = Normal d /\ d <> Boolean true /\
       (getProperty res "value" = Throw e \/
        exists v,
          getProperty res "value" = Normal v /\
          converter v (elementOptions opts i) = Throw e)).


(** A number clamped between the integers [L] and [H], in units. *)
Definition clampUnits (L H : Z) (x : number) : Z :=
  match x with
  | PosInf => H * unit_scale
  | NegInf => L * unit_scale
  | _ => Z.min (Z.max (units x) (L * unit_scale)) (H * unit_scale)
  end.

(** ** Exact arithmetic on numbers *)

#[local] Opaque unit_scale overflow_threshold.

Lemma unit_scale_pos : 0 < unit_scale.
Proof. reflexivity. Qed.

Lemma unit_scale_eq : unit_scale = 2 ^ 1074.
Proof. reflexivity. Qed.

Lemma overflow_threshold_eq : overflow_threshold = 2 ^ 2098.
Proof. reflexivity. Qed.

Lemma of_Z_inj (a b : Z) : of_Z a = of_Z b -> a = b.
Proof.
  unfold of_Z. intros [= H]. pose proof unit_scale_pos.
  apply Z.mul_cancel_r in H; lia.
Qed.

Lemma excess_nonneg (n : Z) : 0 <= excess n.
Proof. unfold excess. lia. Qed.

Lemma excess_abs (n : Z) : excess (Z.abs n) = excess n.
Proof. unfold excess. now rewrite (Z.abs_eq (Z.abs n)) by apply Z.abs_nonneg. Qed.

(** A multiple of [2^e] below [2^(e+53)] in magnitude, or equal to it,
    fits the significand. *)
Lemma representable_intro (n e : Z) :
  0 <= e -> (2 ^ e | n) -> Z.abs n <= 2 ^ (e + 53) ->
  Z.abs n < overflow_threshold -> representable n = true.
Proof.
  intros He Hdiv Hbound Hover. unfold representable.
  apply andb_true_iff. split; [|now apply Z.ltb_lt].
  apply Z.eqb_eq. apply Z.mod_divide; [apply Z.pow_nonzero; [lia|apply excess_nonneg]|].
  destruct (Z.eq_dec n 0) as [->|Hn]; [apply Z.divide_0_r|].
  assert (Hlog : Z.log2 (Z.abs n) <= e + 53).
  { rewrite <- (Z.log2_pow2 (e + 53)) by lia. now apply Z.log2_le_mono. }
  destruct (Z.eq_dec (Z.log2 (Z.abs n)) (e + 53)) as [Heq|Hneq].
  - assert (Habs : Z.abs n = 2 ^ (e + 53)).
    { pose proof (Z.log2_spec (Z.abs n) ltac:(lia)) as [Hlo _].
      rewrite Heq in Hlo. lia. }
    unfold excess. rewrite Heq, Habs.
    replace (Z.max 0 (e + 53 + 1 - 53)) with (e + 1) by lia.
    exists (2 ^ 52). rewrite <- Z.pow_add_r by lia. f_equal. lia.
  - apply Z.divide_trans with (2 ^ e);
      [|now apply (proj2 (Z.divide_abs_r (2 ^ e) n))].
    unfold excess.
    exists (2 ^ (e - Z.max 0 (Z.log2 (Z.abs n) + 1 - 53))).
    rewrite <- Z.pow_add_r by lia. f_equal. lia.
Qed.

Lemma representable_divide (n : Z) :
  representable n = true -> (2 ^ excess n | n).
Proof.
  unfold representable. intros H. apply andb_true_iff in H as [H _].
  apply Z.eqb_eq in H. apply (proj1 (Z.divide_abs_r (2 ^ excess n) n)).
  apply Z.mod_divide; [apply Z.pow_nonzero; [lia|apply excess_nonneg]|exact H].
Qed.

Lemma representable_bound (n : Z) :
  representable n = true -> Z.abs n < overflow_threshold.
Proof.
  unfold representable. intros H. apply andb_true_iff in H as [_ H].
  now apply Z.ltb_lt.
Qed.

(** Rounding leaves a representable value as it is. *)
Lemma round_double_exact (n : Z) :
  representable n = true -> round_double n = Fin n.
Proof.
  intros Hrep. pose proof (representable_divide n Hrep) as Hdiv.
  pose proof (representable_bound n Hrep) as Hbound.
  unfold round_double. rewrite excess_abs.
  assert (Hpos : 0 < 2 ^ excess n) by (apply Z.pow_pos_nonneg; [lia|apply excess_nonneg]).
  assert (Hmod : Z.abs n mod 2 ^ excess n = 0).
  { apply Z.mod_divide; [lia|]. now apply (proj2 (Z.divide_abs_r (2 ^ excess n) n)). }
  rewrite Hmod.
  replace (2 * 0 <? 2 ^ excess n) with true by (symmetry; apply Z.ltb_lt; lia).
  assert (Hexact : Z.abs n / 2 ^ excess n * 2 ^ excess n = Z.abs n).
  { pose proof (Z.div_mod (Z.abs n) (2 ^ excess n) ltac:(lia)). lia. }
  rewrite Hexact.
  replace (overflow_threshold <=? Z.abs n) with false
    by (symmetry; apply Z.leb_gt; lia).
  f_equal. rewrite Z.mul_comm. apply Z.abs_sgn.
Qed.

Lemma representable_of_Z (k : Z) :
  Z.abs k <= 2 ^ 53 -> representable (k * unit_scale) = true.
Proof.
  intros Hk. apply (representable_intro _ 1074); [lia| | |].
  - rewrite unit_scale_eq. apply Z.divide_factor_r.
  - rewrite Z.abs_mul, unit_scale_eq, Z.pow_add_r by lia.
    rewrite (Z.abs_eq (2 ^ 1074)) by lia. rewrite (Z.mul_comm (2 ^ 1074)).
    apply Z.mul_le_mono_nonneg_r; lia.
  - rewrite Z.abs_mul, unit_scale_eq, overflow_threshold_eq.
    rewrite (Z.abs_eq (2 ^ 1074)) by lia.
    apply Z.le_lt_trans with (2 ^ 53 * 2 ^ 1074);
      [apply Z.mul_le_mono_nonneg_r; lia|].
    rewrite <- Z.pow_add_r by lia. apply Z.pow_lt_mono_r; lia.
Qed.

(** ** Arithmetic on integers kept as numbers *)

Lemma scaled_nonzero (k : Z) : k <> 0 -> k * unit_scale <> 0.
Proof.
  pose proof unit_scale_pos. intros Hk H0. apply Z.mul_eq_0 in H0. lia.
Qed.

Lemma lt_of_Z (a b : Z) : lt (of_Z a) (of_Z b) = (a <? b).
Proof.
  unfold of_Z. cbn [lt units]. pose proof unit_scale_pos.
  destruct (Z.ltb_spec a b).
  - apply Z.ltb_lt. now apply Z.mul_lt_mono_pos_r.
  - apply Z.ltb_ge. now apply Z.mul_le_mono_pos_r.
Qed.

Lemma ge_of_Z (a b : Z) : ge (of_Z a) (of_Z b) = (b <=? a).
Proof.
  change (ge (of_Z a) (of_Z b)) with (negb (lt (of_Z a) (of_Z b))).
  rewrite lt_of_Z. symmetry. apply Z.leb_antisym.
Qed.

Lemma strict_eq_of_Z (a b : Z) : strict_eq (of_Z a) (of_Z b) = (a =? b).
Proof.
  unfold of_Z. cbn [strict_eq units]. pose proof unit_scale_pos.
  destruct (Z.eqb_spec a b) as [->|Hne].
  - apply Z.eqb_refl.
  - apply Z.eqb_neq. intros H'. apply Z.mul_cancel_r in H'; lia.
Qed.

Lemma lt_NegZero_l (y : number) : lt NegZero y = lt (Fin 0) y.
Proof. now destruct y. Qed.

Lemma lt_NegZero_r (y : number) : lt y NegZero = lt y (Fin 0).
Proof. now destruct y. Qed.


Lemma strict_eq_NegZero_zero : strict_eq NegZero (of_Z 0) = true.
Proof. reflexivity. Qed.

Lemma strict_eq_Fin_zero (n : Z) : strict_eq (Fin n) (of_Z 0) = (n =? 0).
Proof. reflexivity. Qed.

Lemma normalize_of_Z (k : Z) :
  (if strict_eq (of_Z k) (of_Z 0) then of_Z 0 else of_Z k) = of_Z k.
Proof.
  rewrite strict_eq_of_Z. destruct (Z.eqb_spec k 0) as [->|_]; reflexivity.
Qed.

Lemma normalize_Fin (n : Z) :
  (if strict_eq (Fin n) (of_Z 0) then of_Z 0 else Fin n) = Fin n.
Proof.
  rewrite strict_eq_Fin_zero. destruct (Z.eqb_spec n 0) as [->|_]; reflexivity.
Qed.

Lemma rem_Fin (a m : Z) :
  m <> 0 ->
  rem (Fin a) (Fin m)
  = if (Z.rem a m =? 0) && (a <? 0) then NegZero else Fin (Z.rem a m).
Proof. intros Hm. destruct m; [contradiction|reflexivity|reflexivity]. Qed.

Lemma rem_NegZero (m : Z) : m <> 0 -> rem NegZero (Fin m) = NegZero.
Proof. intros Hm. destruct m; [contradiction|reflexivity|reflexivity]. Qed.

Lemma modulo_of_Z (a b : Z) :
  b <> 0 -> modulo (of_Z a) (of_Z b) = of_Z (Z.rem a b).
Proof.
  intros Hb. unfold modulo, of_Z.
  pose proof unit_scale_pos.
  rewrite rem_Fin by now apply scaled_nonzero.
  rewrite Z.mul_rem_distr_r by lia.
  change (Fin (0 * unit_scale)) with (of_Z 0).
  destruct ((Z.rem a b * unit_scale =? 0) && (a * unit_scale <? 0)) eqn:E.
  - apply andb_true_iff in E as [E _]. apply Z.eqb_eq in E.
    rewrite strict_eq_NegZero_zero, E. reflexivity.
  - rewrite strict_eq_Fin_zero.
    destruct (Z.eqb_spec (Z.rem a b * unit_scale) 0) as [E0|_]; [|reflexivity].
    rewrite E0. reflexivity.
Qed.

Lemma modulo_NegZero (b : Z) : b <> 0 -> modulo NegZero (of_Z b) = of_Z 0.
Proof.
  intros Hb. unfold modulo. unfold of_Z at 1.
  now rewrite rem_NegZero by now apply scaled_nonzero.
Qed.

Lemma MathTrunc_Fin (n : Z) :
  (MathTrunc (Fin n) = NegZero /\ Z.quot n unit_scale = 0 /\ n < 0) \/
  MathTrunc (Fin n) = of_Z (Z.quot n unit_scale).
Proof.
  unfold MathTrunc, of_Z. pose proof unit_scale_pos.
  destruct ((Z.quot n unit_scale * unit_scale =? 0) && (n <? 0)) eqn:E.
  - left. apply andb_true_iff in E as [E1 E2].
    apply Z.eqb_eq in E1. apply Z.ltb_lt in E2.
    apply Z.mul_eq_0 in E1. repeat split; [lia|exact E2].
  - now right.
Qed.

Lemma MathTrunc_of_Z (k : Z) : MathTrunc (of_Z k) = of_Z k.
Proof.
  unfold MathTrunc, of_Z. pose proof unit_scale_pos.
  rewrite Z.quot_mul by lia.
  destruct (Z.eqb_spec (k * unit_scale) 0) as [E|_]; [|reflexivity].
  rewrite E. reflexivity.
Qed.

Lemma truncation_bound (n k : Z) :
  Z.abs n <= k * unit_scale -> Z.abs (Z.quot n unit_scale) <= k.
Proof.
  intros Hn. pose proof unit_scale_pos as Hu.
  rewrite <- Z.quot_abs by lia.
  rewrite (Z.abs_eq unit_scale) by lia.
  apply Z.quot_le_upper_bound; [lia|].
  rewrite Z.mul_comm. exact Hn.
Qed.

Lemma neg_of_Z (k : Z) : k <> 0 -> neg (of_Z k) = of_Z (- k).
Proof.
  intros Hk. unfold of_Z. rewrite Z.mul_opp_l.
  pose proof (scaled_nonzero k Hk).
  destruct (k * unit_scale); [contradiction|reflexivity|reflexivity].
Qed.

Lemma add_of_Z (a b : Z) :
  Z.abs (a + b) <= 2 ^ 53 -> add (of_Z a) (of_Z b) = of_Z (a + b).
Proof.
  intros Hsum. unfold of_Z. cbn [add]. rewrite <- Z.mul_add_distr_r.
  apply round_double_exact. now apply representable_of_Z.
Qed.

Lemma sub_of_Z (a b : Z) :
  b <> 0 -> representable ((a - b) * unit_scale) = true ->
  sub (of_Z a) (of_Z b) = of_Z (a - b).
Proof.
  intros Hb Hrep. unfold sub. rewrite neg_of_Z by exact Hb.
  unfold of_Z. cbn [add]. rewrite <- Z.mul_add_distr_r.
  replace (a + - b) with (a - b) by lia.
  now apply round_double_exact.
Qed.

Lemma MathMin_of_Z (a b : Z) : MathMin (of_Z a) (of_Z b) = of_Z (Z.min a b).
Proof.
  pose proof unit_scale_pos as Hu.
  unfold MathMin. rewrite !lt_of_Z. unfold of_Z.
  destruct (Z.ltb_spec a b).
  - f_equal. f_equal. lia.
  - destruct (Z.ltb_spec b a); f_equal; f_equal; lia.
Qed.

Lemma clamp_Fin (n L H : Z) :
  L <= H ->
  MathMin (MathMax (Fin n) (of_Z L)) (of_Z H)
  = Fin (Z.min (Z.max n (L * unit_scale)) (H * unit_scale)).
Proof.
  intros HLH. pose proof unit_scale_pos as Hu.
  assert (Hscaled : L * unit_scale <= H * unit_scale)
    by (apply Z.mul_le_mono_nonneg_r; lia).
  unfold of_Z, MathMax. cbn [lt units].
  destruct (Z.ltb_spec n (L * unit_scale)) as [H1|H1].
  - unfold MathMin. cbn [lt units].
    destruct (Z.ltb_spec (L * unit_scale) (H * unit_scale)) as [H2|H2].
    + f_equal. lia.
    + destruct (Z.ltb_spec (H * unit_scale) (L * unit_scale)); f_equal; lia.
  - assert (Hmax : (if L * unit_scale <? n then Fin n else Fin n) = Fin n)
      by now destruct (L * unit_scale <? n).
    rewrite Hmax. unfold MathMin. cbn [lt units].
    destruct (Z.ltb_spec n (H * unit_scale)) as [H2|H2].
    + f_equal. lia.
    + destruct (Z.ltb_spec (H * unit_scale) n); f_equal; lia.
Qed.

(** The truncation of a double of magnitude at least [2^53] is the
    double itself, a multiple of [2^(e - 52)] when it reaches [2^e]. *)
Lemma truncation_divide (n e : Z) :
  representable n = true -> 52 <= e ->
  2 ^ e <= Z.abs (Z.quot n unit_scale) ->
  (2 ^ (e - 52) | Z.quot n unit_scale).
Proof.
  intros Hrep He Hbig.
  pose proof unit_scale_pos as Hu.
  assert (Hpow : 0 < 2 ^ e) by (apply Z.pow_pos_nonneg; lia).
  assert (Habs : Z.abs (Z.quot n unit_scale) * unit_scale <= Z.abs n).
  { pose proof (Z.quot_rem' n unit_scale) as Hqr.
    destruct (Z.le_ge_cases 0 n) as [Hn|Hn].
    - pose proof (Z.rem_bound_pos_pos n unit_scale Hu Hn).
      pose proof (Z.quot_pos n unit_scale Hn Hu).
      rewrite (Z.abs_eq (Z.quot n unit_scale)), (Z.abs_eq n) by lia. lia.
    - pose proof (Z.rem_bound_pos_neg n unit_scale Hu Hn).
      assert (Z.quot n unit_scale <= 0).
      { rewrite <- (Z.opp_involutive n), Z.quot_opp_l by lia.
        pose proof (Z.quot_pos (- n) unit_scale ltac:(lia) Hu). lia. }
      rewrite (Z.abs_neq (Z.quot n unit_scale)), (Z.abs_neq n) by lia. lia. }
  assert (Hn : 2 ^ (e + 1074) <= Z.abs n).
  { rewrite Z.pow_add_r by lia. rewrite <- unit_scale_eq. nia. }
  assert (Hlog : e + 1074 <= Z.log2 (Z.abs n)).
  { apply Z.log2_le_pow2; [|exact Hn].
    assert (0 < 2 ^ (e + 1074)) by (apply Z.pow_pos_nonneg; lia). lia. }
  assert (Hk : e + 1022 <= excess n) by (unfold excess; lia).
  pose proof (representable_divide n Hrep) as Hdiv.
  remember (excess n) as k eqn:Ek. clear Ek.
  destruct Hdiv as [m Hm].
  assert (Hsplit : 2 ^ k = 2 ^ (k - 1074) * unit_scale).
  { rewrite unit_scale_eq, <- Z.pow_add_r by lia. f_equal. lia. }
  assert (Hq : Z.quot n unit_scale = m * 2 ^ (k - 1074)).
  { rewrite Hm, Hsplit, Z.mul_assoc. apply Z.quot_mul. lia. }
  rewrite Hq.
  exists (m * 2 ^ (k - 1074 - (e - 52))).
  rewrite <- Z.mul_assoc, <- Z.pow_add_r by lia.
  do 2 f_equal. lia.
Qed.

(** Subtracting [2^b] from a remainder in the upper half of
    [[0, 2^b)] is exact. *)
Lemma wrap_representable (n b : Z) :
  representable n = true -> 1 <= b <= 1024 ->
  2 ^ (b - 1) <= Z.rem (Z.quot n unit_scale) (2 ^ b) ->
  representable ((Z.rem (Z.quot n unit_scale) (2 ^ b) - 2 ^ b) * unit_scale)
  = true.
Proof.
  intros Hrep Hb Hupper.
  pose proof unit_scale_pos as Hu.
  assert (Hhalf : 0 < 2 ^ (b - 1)) by (apply Z.pow_pos_nonneg; lia).
  assert (Hdouble : 2 ^ b = 2 * 2 ^ (b - 1)).
  { replace b with (1 + (b - 1)) at 1 by lia. now rewrite Z.pow_add_r by lia. }
  remember (Z.quot n unit_scale) as t eqn:Et.
  remember (Z.rem t (2 ^ b)) as r eqn:Er.
  assert (Ht : 0 < t).
  { destruct (Z.lt_ge_cases 0 t) as [H|H]; [exact H|].
    pose proof (Z.rem_bound_pos_neg t (2 ^ b) ltac:(lia) H). lia. }
  pose proof (Z.rem_bound_pos_pos t (2 ^ b) ltac:(lia) ltac:(lia)) as Hr.
  rewrite <- Er in Hr.
  pose proof (Z.quot_rem' t (2 ^ b)) as Hqr. rewrite <- Er in Hqr.
  pose proof (Z.quot_pos t (2 ^ b) ltac:(lia) ltac:(lia)) as Hq.
  assert (Hrange : Z.abs (r - 2 ^ b) <= 2 ^ (b - 1)) by lia.
  destruct (Z.le_gt_cases b 53) as [Hsmall|Hlarge].
  - apply representable_of_Z.
    apply Z.le_trans with (2 ^ (b - 1)); [exact Hrange|].
    apply Z.pow_le_mono_r; lia.
  - assert (Hdiv : (2 ^ (b - 53) | t)).
    { replace (b - 53) with (b - 1 - 52) by lia. subst t.
      apply truncation_divide; [exact Hrep|lia|].
      rewrite Z.abs_eq by lia. nia. }
    assert (Hdivb : (2 ^ (b - 53) | 2 ^ b)).
    { exists (2 ^ 53). rewrite <- Z.pow_add_r by lia. f_equal. lia. }
    assert (Hdivr : (2 ^ (b - 53) | r - 2 ^ b)).
    { replace (r - 2 ^ b) with (t - 2 ^ b * (Z.quot t (2 ^ b)) - 2 ^ b) by lia.
      apply Z.divide_sub_r; [|exact Hdivb].
      apply Z.divide_sub_r; [exact Hdiv|].
      now apply Z.divide_mul_l. }
    apply (representable_intro _ (b - 53 + 1074)); [lia| | |].
    + rewrite Z.pow_add_r, <- unit_scale_eq by lia.
      now apply Z.mul_divide_mono_r.
    + rewrite Z.abs_mul, (Z.abs_eq unit_scale) by lia.
      apply Z.le_trans with (2 ^ (b - 1) * unit_scale);
        [apply Z.mul_le_mono_nonneg_r; lia|].
      rewrite unit_scale_eq, <- Z.pow_add_r by lia.
      apply Z.pow_le_mono_r; lia.
    + rewrite Z.abs_mul, (Z.abs_eq unit_scale) by lia.
      apply Z.le_lt_trans with (2 ^ (b - 1) * unit_scale);
        [apply Z.mul_le_mono_nonneg_r; lia|].
      rewrite unit_scale_eq, overflow_threshold_eq, <- Z.pow_add_r by lia.
      apply Z.pow_lt_mono_r; lia.
Qed.


(** ** Properties of [pow2] *)

(** [pow2] is the exact power of two on every exponent from 0 to 1023. *)
Lemma pow2_power (e : Z) : 0 <= e <= 1023 -> pow2 e = of_Z (2 ^ e).
Proof.
  intros He. unfold pow2.
  destruct (Z.ltb_spec e 31) as [Hlt|Hge].
  - f_equal. unfold shl32.
    change (to_int32 1) with 1.
    rewrite Z.mod_small by lia. rewrite Z.shiftl_1_l.
    assert (Hbound : 0 < 2 ^ e < 2 ^ 31).
    { split; [apply Z.pow_pos_nonneg; lia|apply Z.pow_lt_mono_r; lia]. }
    unfold to_int32. cbn zeta.
    rewrite Z.mod_small by lia.
    destruct (Z.leb_spec (2 ^ 31) (2 ^ e)); [lia|reflexivity].
  - destruct (Z.eqb_spec e 31) as [->|H31]; [vm_compute; reflexivity|].
    destruct (Z.eqb_spec e 32) as [->|H32]; [vm_compute; reflexivity|].
    unfold MathPow2.
    destruct (Z.ltb_spec 1023 e); [lia|].
    destruct (Z.ltb_spec e (-1074)); [lia|].
    unfold of_Z. now rewrite unit_scale_eq, Z.pow_add_r by lia.
Qed.

(** C6: [pow2(31)] is [0x80000000] and [pow2(32)] is [0x100000000]; the
    32-bit shift is what [pow2] computes only below 31 (at 31 it would
    give a negative number), from 31 on the value is that of
    [MathPow(2, e)]; and [pow2(e)] is exactly [2^e] for the exponents
    that [convertToInt] uses with the bit lengths 8, 16, 32 and 64. *)
Theorem pow2_exact (e : Z) :
  pow2 31 = of_Z 0x80000000 /\
  pow2 32 = of_Z 0x100000000 /\
  (e < 31 -> pow2 e = of_Z (shl32 1 e)) /\
  (31 <= e -> pow2 e = MathPow2 e) /\
  of_Z (shl32 1 31) <> of_Z (2 ^ 31) /\
  (e ∈ [8; 16; 32; 64; 7; 15; 31; 63] -> pow2 e = of_Z (2 ^ e)).
Proof.
  split; [vm_compute; reflexivity|].
  split; [vm_compute; reflexivity|].
  split.
  { intros He. unfold pow2. apply Z.ltb_lt in He. now rewrite He. }
  split.
  { intros He. unfold pow2.
    destruct (e <? 31) eqn:H1; [apply Z.ltb_lt in H1; lia|].
    destruct (e =? 31) eqn:H2.
    { apply Z.eqb_eq in H2. subst e. vm_compute. reflexivity. }
    destruct (e =? 32) eqn:H3; [|reflexivity].
    apply Z.eqb_eq in H3. subst e. vm_compute. reflexivity. }
  split.
  { intros H. apply of_Z_inj in H. vm_compute in H. discriminate. }
  intros He.
  repeat (apply elem_of_cons in He as [-> | He]; [vm_compute; reflexivity|]).
  now apply elem_of_nil in He.
Qed.

Lemma pow2_exact_witness :
  pow2 8 = of_Z (shl32 1 8) /\ pow2 64 = MathPow2 64 /\ pow2 63 = of_Z (2 ^ 63).
Proof.
  destruct (pow2_exact 8) as (_ & _ & Hshift & _).
  destruct (pow2_exact 64) as (_ & _ & _ & Hpow & _).
  destruct (pow2_exact 63) as (_ & _ & _ & _ & _ & Hused).
  split; [apply Hshift; lia|].
  split; [apply Hpow; lia|].
  apply Hused. repeat constructor.
Defined.

(** ** The bounds of the integer types *)

Lemma bounds_integers (bitLength : Z) (signed : bool) :
  bitLength ∈ [8; 16; 32; 64] ->
  bounds bitLength signed
  = (of_Z (lowerBoundZ bitLength signed), of_Z (upperBoundZ bitLength signed)).
Proof.
  intros Hb.
  repeat (apply elem_of_cons in Hb as [-> | Hb];
          [destruct signed; vm_compute; reflexivity|]).
  now apply elem_of_nil in Hb.
Qed.

Lemma bounds_integers_range (bitLength : Z) (signed : bool) :
  bitLength ∈ [8; 16; 32; 64] ->
  - (2 ^ 53 - 1) <= lowerBoundZ bitLength signed <= 0 /\
  0 <= upperBoundZ bitLength signed <= 2 ^ 53 - 1.
Proof.
  intros Hb.
  repeat (apply elem_of_cons in Hb as [-> | Hb];
          [destruct signed; vm_compute; repeat split; discriminate|]).
  now apply elem_of_nil in Hb.
Qed.

(** ** Failures of [convertToInt] *)




(** ** The default mode: reduction modulo [2^bitLength] *)

(** C1: at the input -1 with bit length 8 the value reduced by [modulo]
    is -1, which is negative: [%] gives the remainder the sign of the
    dividend.  The unsigned conversion of -1 therefore returns -1, below
    the lower bound 0. *)
Theorem modulo_negative_dividend :
  modulo (integerPart (of_Z (-1))) (pow2 8) = of_Z (-1) /\
  lt (modulo (integerPart (of_Z (-1))) (pow2 8)) (of_Z 0) = true /\
  convertToInt SampleHost.StringToNumber "x" (Num (of_Z (-1))) 8 kEmptyObject
  = Normal (of_Z (-1)) /\
  fst (bounds 8 false) = of_Z 0.
Proof. repeat split; vm_compute; reflexivity. Qed.

(** The default mode computes [wrap] on the truncation of [x], provided
    the subtraction of [2^b], when it takes place, is exact. *)
Lemma convertToInt_default_exact (StringToNumber : string -> number)
    (name : string) (value : Value) (b : Z) (options : Options)
    (x : number) :
  1 <= b <= 1024 ->
  pow2 b = of_Z (2 ^ b) -> pow2 (b - 1) = of_Z (2 ^ (b - 1)) ->
  default false (enforceRange options) = false ->
  default false (clamp options) = false ->
  ToNumber StringToNumber value = Normal x ->
  finite x = true ->
  (default false (signed options) = true ->
   2 ^ (b - 1) <= Z.rem (Z.quot (units x) unit_scale) (2 ^ b) ->
   representable
     ((Z.rem (Z.quot (units x) unit_scale) (2 ^ b) - 2 ^ b) * unit_scale)
   = true) ->
  convertToInt StringToNumber name value b options
  = Normal
      (of_Z (wrap (default false (signed options)) b
               (Z.quot (units x) unit_scale))).
Proof.
  intros Hb Hpow Hpow1 Henforce Hclamp Hx Hfinite Hexact.
  pose proof unit_scale_pos as Hu.
  assert (Hhalf : 0 < 2 ^ (b - 1)) by (apply Z.pow_pos_nonneg; lia).
  assert (Hfull : 0 < 2 ^ b) by (apply Z.pow_pos_nonneg; lia).
  unfold convertToInt. rewrite Hx, Henforce, Hclamp.
  cbn [mbind Result_bind andb].
  destruct (bounds b (default false (signed options))) as [lo hi].
  rewrite Hpow, Hpow1.
  assert (Hzero : wrap (default false (signed options)) b 0 = 0).
  { unfold wrap. cbn zeta. rewrite Z.rem_0_l by lia.
    replace (2 ^ (b - 1) <=? 0) with false by (symmetry; apply Z.leb_gt; lia).
    now rewrite andb_false_r. }
  destruct x as [| | | |n]; try discriminate.
  { cbn [units]. change (Z.quot 0 unit_scale) with 0. rewrite Hzero.
    reflexivity. }
  cbn [units] in *. rewrite strict_eq_Fin_zero.
  destruct (Z.eqb_spec n 0) as [->|Hn].
  { change (Z.quot 0 unit_scale) with 0. rewrite Hzero. reflexivity. }
  rewrite strict_eq_Fin_zero.
  replace (n =? 0) with false by (symmetry; now apply Z.eqb_neq).
  cbn [NumberIsNaN strict_eq orb]. unfold integerPart.
  cbn zeta.
  assert (Hmodulo :
    modulo (MathTrunc (Fin n)) (of_Z (2 ^ b))
    = of_Z (Z.rem (Z.quot n unit_scale) (2 ^ b))).
  { destruct (MathTrunc_Fin n) as [(-> & -> & _)| ->].
    - rewrite modulo_NegZero by lia. now rewrite Z.rem_0_l by lia.
    - apply modulo_of_Z. lia. }
  rewrite Hmodulo, ge_of_Z. unfold wrap. cbn zeta.
  destruct (default false (signed options) && (2 ^ (b - 1) <=? _)) eqn:Hwrap;
    [|reflexivity].
  apply andb_true_iff in Hwrap as [Hsigned Hwrap]. apply Z.leb_le in Hwrap.
  f_equal. apply sub_of_Z; [lia|].
  now apply Hexact.
Qed.

Lemma convertToInt_default (StringToNumber : string -> number)
    (name : string) (value : Value) (b : Z) (options : Options)
    (x : number) :
  1 <= b <= 1024 ->
  pow2 b = of_Z (2 ^ b) -> pow2 (b - 1) = of_Z (2 ^ (b - 1)) ->
  default false (enforceRange options) = false ->
  default false (clamp options) = false ->
  ToNumber StringToNumber value = Normal x ->
  finite x = true -> is_double x = true ->
  convertToInt StringToNumber name value b options
  = Normal
      (of_Z (wrap (default false (signed options)) b
               (Z.quot (units x) unit_scale))).
Proof.
  intros Hb Hpow Hpow1 Henforce Hclamp Hx Hfinite Hdouble.
  apply convertToInt_default_exact; try assumption.
  intros _ Hupper. apply wrap_representable; [|exact Hb|exact Hupper].
  destruct x; try discriminate; [reflexivity|exact Hdouble].
Qed.

(** What the default mode (neither [enforceRange] nor [clamp]) computes:
    a finite number is truncated to the integer [t] and reduced to the
    remainder [r] of the truncated division of [t] by [2^bitLength],
    which has the sign of [t], is congruent to [t] modulo [2^bitLength]
    and is smaller than [2^bitLength] in magnitude; a signed conversion
    returns [r - 2^bitLength], a negative number not below
    [-2^(bitLength-1)], when [r] is at least [2^(bitLength-1)], and [r]
    otherwise. *)
Theorem convertToInt_wraps (StringToNumber : string -> number)
    (name : string) (value : Value) (bitLength : Z) (options : Options)
    (x : number) :
  1 <= bitLength <= 1023 ->
  default false (enforceRange options) = false ->
  default false (clamp options) = false ->
  ToNumber StringToNumber value = Normal x ->
  finite x = true -> is_double x = true ->
  let t := Z.quot (units x) unit_scale in
  let r := Z.rem t (2 ^ bitLength) in
  convertToInt StringToNumber name value bitLength options
  = Normal (of_Z (if default false (signed options)
                     && (2 ^ (bitLength - 1) <=? r)
                  then r - 2 ^ bitLength else r)) /\
  r mod 2 ^ bitLength = t mod 2 ^ bitLength /\
  Z.abs r < 2 ^ bitLength /\
  (2 ^ (bitLength - 1) <= r ->
   - 2 ^ (bitLength - 1) <= r - 2 ^ bitLength < 0) /\
  convertToInt StringToNumber "x" (Num (of_Z 256)) 8 kEmptyObject
  = Normal (of_Z 0) /\
  convertToInt StringToNumber "x" (Num (of_Z (-1))) 8 signedOptions
  = Normal (of_Z (-1)).
Proof.
  intros Hb Henforce Hclamp Hx Hfinite Hdouble t r.
  assert (Hfull : 0 < 2 ^ bitLength) by (apply Z.pow_pos_nonneg; lia).
  assert (Hsplit : 2 ^ bitLength = 2 * 2 ^ (bitLength - 1)).
  { replace bitLength with (1 + (bitLength - 1)) at 1 by lia.
    now rewrite Z.pow_add_r by lia. }
  pose proof (Z.rem_bound_abs t (2 ^ bitLength) ltac:(lia)) as Habs.
  rewrite (Z.abs_eq (2 ^ bitLength)) in Habs by lia. fold r in Habs.
  split; [|split; [|split; [|split; [|split]]]].
  - apply (convertToInt_default StringToNumber name value bitLength options x);
      try assumption; try lia; apply pow2_power; lia.
  - subst r. rewrite (Z.rem_eq t (2 ^ bitLength)) by lia.
    replace (t - 2 ^ bitLength * Z.quot t (2 ^ bitLength))
      with (t + (- Z.quot t (2 ^ bitLength)) * 2 ^ bitLength) by lia.
    apply Z_mod_plus_full.
  - exact Habs.
  - intros Hupper. lia.
  - vm_compute. reflexivity.
  - vm_compute. reflexivity.
Qed.

Lemma convertToInt_wraps_witness :
  convertToInt SampleHost.StringToNumber "x" (Num (of_Z 200)) 8 signedOptions
  = Normal (of_Z (-56)) /\
  convertToInt SampleHost.StringToNumber "x" (Str "300") 8 kEmptyObject
  = Normal (of_Z 44).
Proof.
  destruct (convertToInt_wraps SampleHost.StringToNumber "x" (Num (of_Z 200)) 8
              signedOptions (of_Z 200)) as (Hsigned & _);
    [lia|reflexivity|reflexivity|reflexivity|reflexivity
    |vm_compute; reflexivity|].
  destruct (convertToInt_wraps SampleHost.StringToNumber "x" (Str "300") 8
              kEmptyObject (of_Z 300)) as (Hunsigned & _);
    [lia|reflexivity|reflexivity|vm_compute; reflexivity|reflexivity
    |vm_compute; reflexivity|].
  split.
  - rewrite Hsigned. vm_compute. reflexivity.
  - rewrite Hunsigned. vm_compute. reflexivity.
Defined.

(** C4: the two conversions the claim names come out as it says: 256
    converts to 0 with 8 unsigned bits, and -1 converts to -1 with 8
    signed bits.  A negative input is not reduced modulo [2^bitLength],
    though: the signed conversion of -129 with 8 bits returns -129,
    below the lower bound -128, where -129 reduced modulo [2^8] is 127,
    which is below [2^7] and would be returned unchanged; and the
    unsigned conversion of -1 returns -1 where -1 reduced modulo [2^8]
    is 255.  The value that [modulo] hands to the signed adjustment is
    the remainder -129 of the truncated division. *)
Theorem convertToInt_negative_not_reduced :
  convertToInt SampleHost.StringToNumber "x" (Num (of_Z 256)) 8 kEmptyObject
  = Normal (of_Z 0) /\
  convertToInt SampleHost.StringToNumber "x" (Num (of_Z (-1))) 8 signedOptions
  = Normal (of_Z (-1)) /\
  convertToInt SampleHost.StringToNumber "x" (Num (of_Z (-129))) 8
    signedOptions
  = Normal (of_Z (-129)) /\
  modulo (integerPart (of_Z (-129))) (pow2 8) = of_Z (-129) /\
  lt (of_Z (-129)) (fst (bounds 8 true)) = true /\
  ((-129) mod 2 ^ 8 = 127 /\ 127 < 2 ^ (8 - 1)) /\
  convertToInt SampleHost.StringToNumber "x" (Num (of_Z (-1))) 8 kEmptyObject
  = Normal (of_Z (-1)) /\
  (-1) mod 2 ^ 8 = 255.
Proof.
  split; [vm_compute; reflexivity|].
  split; [vm_compute; reflexivity|].
  split; [vm_compute; reflexivity|].
  split; [vm_compute; reflexivity|].
  split; [vm_compute; reflexivity|].
  split; [split; [reflexivity|lia]|].
  split; [vm_compute; reflexivity|reflexivity].
Qed.

(** ** The clamp mode: rounding *)

(** [evenRound] on a finite number, in integers: [q] is the truncation
    and [f] the magnitude of the fractional part, in units. *)
Lemma evenRound_Fin (n : Z) :
  Z.abs n <= (2 ^ 53 - 1) * unit_scale ->
  evenRound (Fin n)
  = of_Z (let q := Z.quot n unit_scale in
          let f := Z.abs (Z.rem n unit_scale) in
          if f =? unit_scale / 2 then
            if Z.rem q 2 =? 0 then q else q + Z.sgn q
          else if f <? unit_scale / 2 then q else q + Z.sgn q).
Proof.
  intros Hn. pose proof unit_scale_pos as Hu.
  pose proof (truncation_bound n _ Hn) as Hq.
  remember (Z.quot n unit_scale) as q eqn:Eq.
  remember (Z.abs (Z.rem n unit_scale)) as f eqn:Ef.
  cbn zeta. unfold evenRound. cbn zeta.
  assert (Hi : add (integerPart (Fin n)) (of_Z 0) = of_Z q).
  { unfold integerPart.
    destruct (MathTrunc_Fin n) as [(-> & Hq0 & _)| ->].
    - rewrite <- Eq in Hq0. rewrite Hq0. reflexivity.
    - rewrite <- Eq, add_of_Z by lia. f_equal. lia. }
  assert (Hrem : MathAbs (rem (Fin n) (of_Z 1)) = Fin f).
  { unfold of_Z. rewrite Z.mul_1_l. rewrite rem_Fin by lia.
    destruct ((Z.rem n unit_scale =? 0) && (n <? 0)) eqn:E.
    - apply andb_true_iff in E as [E _]. apply Z.eqb_eq in E.
      subst f. rewrite E. reflexivity.
    - subst f. reflexivity. }
  assert (Hsign : MathSign (of_Z q) = of_Z (Z.sgn q)).
  { unfold of_Z at 1. cbn [MathSign]. f_equal.
    rewrite Z.sgn_mul. rewrite (Z.sgn_pos unit_scale) by lia. lia. }
  assert (Heven : strict_eq (rem (of_Z q) (of_Z 2)) (of_Z 0) = (Z.rem q 2 =? 0)).
  { unfold of_Z at 1 2. rewrite rem_Fin by lia.
    rewrite Z.mul_rem_distr_r by lia.
    destruct ((Z.rem q 2 * unit_scale =? 0) && (q * unit_scale <? 0)) eqn:E.
    - apply andb_true_iff in E as [E _]. apply Z.eqb_eq in E.
      apply Z.mul_eq_0 in E. destruct E as [E|E]; [|lia].
      rewrite E. reflexivity.
    - change (Fin (Z.rem q 2 * unit_scale)) with (of_Z (Z.rem q 2)).
      apply strict_eq_of_Z. }
  assert (Hadd : add (of_Z q) (of_Z (Z.sgn q)) = of_Z (q + Z.sgn q)).
  { apply add_of_Z. lia. }
  rewrite Hi, Hrem, Hsign, Heven, Hadd.
  change (strict_eq (Fin f) (Fin (unit_scale / 2))) with (f =? unit_scale / 2).
  change (lt (Fin f) (Fin (unit_scale / 2))) with (f <? unit_scale / 2).
  destruct (f =? unit_scale / 2).
  - destruct (Z.rem q 2 =? 0); reflexivity.
  - assert (Hnorm : forall k,
              (if strict_eq (of_Z k) (of_Z 0) then of_Z 0 else of_Z k) = of_Z k).
    { intros k. rewrite strict_eq_of_Z.
      destruct (Z.eqb_spec k 0) as [->|_]; reflexivity. }
    destruct (f <? unit_scale / 2); apply Hnorm.
Qed.

Lemma evenRound_of_Z (k : Z) :
  Z.abs k <= 2 ^ 53 - 1 -> evenRound (of_Z k) = of_Z k.
Proof.
  intros Hk. pose proof unit_scale_pos as Hu. unfold of_Z at 1.
  rewrite evenRound_Fin.
  - cbn zeta. rewrite Z.quot_mul, Z.rem_mul by lia.
    change (Z.abs 0 =? unit_scale / 2) with false.
    change (Z.abs 0 <? unit_scale / 2) with true. reflexivity.
  - rewrite Z.abs_mul, (Z.abs_eq unit_scale) by lia.
    apply Z.mul_le_mono_nonneg_r; lia.
Qed.

(** [evenRound] keeps an integer, and rounds a number between two
    integer bounds to an integer between them. *)
Lemma evenRound_between (m L H : Z) :
  - (2 ^ 53 - 1) <= L <= 0 -> 0 <= H <= 2 ^ 53 - 1 ->
  L * unit_scale <= m <= H * unit_scale ->
  exists k, evenRound (Fin m) = of_Z k /\ L <= k <= H.
Proof.
  intros HL HH Hm. pose proof unit_scale_pos as Hu.
  assert (Hhalf : 0 < unit_scale / 2) by reflexivity.
  assert (Habs : Z.abs m <= (2 ^ 53 - 1) * unit_scale) by nia.
  rewrite evenRound_Fin by exact Habs. cbn zeta.
  eexists. split; [reflexivity|].
  pose proof (Z.quot_rem' m unit_scale) as Hqr.
  remember (Z.quot m unit_scale) as q eqn:Eq.
  remember (Z.rem m unit_scale) as f eqn:Ef.
  assert (Hq : L <= q <= H).
  { subst q. split.
    - rewrite <- (Z.quot_mul L unit_scale) by lia. apply Z.quot_le_mono; lia.
    - rewrite <- (Z.quot_mul H unit_scale) by lia.
      apply Z.quot_le_mono; lia. }
  assert (Haway : Z.abs f <> 0 -> L <= q + Z.sgn q <= H).
  { intros Hf.
    destruct (Z.lt_trichotomy m 0) as [Hneg|[Hzero|Hpos]].
    - pose proof (Z.rem_bound_pos_neg m unit_scale Hu ltac:(lia)) as Hr.
      rewrite <- Ef in Hr.
      assert (q <= 0).
      { subst q. rewrite <- (Z.opp_involutive m), Z.quot_opp_l by lia.
        pose proof (Z.quot_pos (- m) unit_scale ltac:(lia) Hu). lia. }
      assert (L < q) by nia. lia.
    - rewrite Hzero in Ef. change (Z.rem 0 unit_scale) with 0 in Ef. lia.
    - pose proof (Z.rem_bound_pos_pos m unit_scale Hu ltac:(lia)) as Hr.
      rewrite <- Ef in Hr.
      pose proof (Z.quot_pos m unit_scale ltac:(lia) Hu) as Hq0.
      rewrite <- Eq in Hq0.
      assert (q < H) by nia. lia. }
  destruct (Z.eqb_spec (Z.abs f) (unit_scale / 2)) as [Hf|Hf].
  - destruct (Z.rem q 2 =? 0); [exact Hq|apply Haway; lia].
  - destruct (Z.ltb_spec (Z.abs f) (unit_scale / 2)); [exact Hq|apply Haway; lia].
Qed.

(** Away from the interval between -1 and 1, and whenever the
    fractional part is at most one half, [evenRound] gives the nearest
    integer, the even one at a tie. *)
Lemma evenRound_nearest (n : Z) :
  Z.abs n <= (2 ^ 53 - 1) * unit_scale ->
  Z.quot n unit_scale <> 0 \/ Z.abs (Z.rem n unit_scale) <= unit_scale / 2 ->
  exists k,
    evenRound (Fin n) = of_Z k /\
    2 * Z.abs (n - k * unit_scale) <= unit_scale /\
    (2 * Z.abs (n - k * unit_scale) = unit_scale -> Z.even k = true).
Proof.
  intros Hn Hcase. pose proof unit_scale_pos as Hu.
  assert (Heven : unit_scale = 2 * (unit_scale / 2)) by reflexivity.
  rewrite evenRound_Fin by exact Hn. cbn zeta.
  eexists. split; [reflexivity|].
  pose proof (Z.quot_rem' n unit_scale) as Hqr.
  remember (Z.quot n unit_scale) as q eqn:Eq.
  remember (Z.rem n unit_scale) as f eqn:Ef.
  remember (unit_scale / 2) as h eqn:Eh.
  assert (Hsign : (0 < q -> 0 <= f < unit_scale) /\
                  (q < 0 -> - unit_scale < f <= 0) /\
                  Z.abs f < unit_scale).
  { destruct (Z.le_ge_cases 0 n) as [Hpos|Hneg].
    - pose proof (Z.rem_bound_pos_pos n unit_scale Hu Hpos) as Hr.
      rewrite <- Ef in Hr.
      pose proof (Z.quot_pos n unit_scale Hpos Hu) as Hq. rewrite <- Eq in Hq.
      repeat split; lia.
    - pose proof (Z.rem_bound_pos_neg n unit_scale Hu Hneg) as Hr.
      rewrite <- Ef in Hr.
      assert (q <= 0).
      { subst q. rewrite <- (Z.opp_involutive n), Z.quot_opp_l by lia.
        pose proof (Z.quot_pos (- n) unit_scale ltac:(lia) Hu). lia. }
      repeat split; lia. }
  destruct Hsign as (Hpos & Hneg & Hf).
  assert (Hstay : n - q * unit_scale = f) by lia.
  assert (Haway : q <> 0 ->
            Z.abs (n - (q + Z.sgn q) * unit_scale) = unit_scale - Z.abs f).
  { intros Hq. destruct (Z.lt_trichotomy q 0) as [Hq0|[Hq0|Hq0]]; [|lia|].
    - rewrite (Z.sgn_neg q) by lia. specialize (Hneg Hq0). lia.
    - rewrite (Z.sgn_pos q) by lia. specialize (Hpos Hq0). lia. }
  destruct (Z.eqb_spec (Z.abs f) h) as [Htie|Hnotie].
  - destruct (Z.eqb_spec (Z.rem q 2) 0) as [Hq2|Hq2].
    + rewrite Hstay. split; [lia|]. intros _.
      apply Z.even_spec. exists (Z.quot q 2).
      pose proof (Z.quot_rem' q 2). lia.
    + assert (Hq0 : q <> 0) by (intros ->; now apply Hq2).
      rewrite (Haway Hq0). split; [lia|]. intros _.
      pose proof (Z.quot_rem' q 2) as Hq2r.
      pose proof (Z.rem_bound_abs q 2 ltac:(lia)) as Hq2b.
      apply Z.even_spec.
      destruct (Z.lt_trichotomy q 0) as [Hs|[Hs|Hs]]; [|lia|].
      * rewrite (Z.sgn_neg q) by lia. exists (Z.quot q 2 - 1).
        pose proof (Z.rem_bound_pos_neg q 2 ltac:(lia) ltac:(lia)). lia.
      * rewrite (Z.sgn_pos q) by lia. exists (Z.quot q 2 + 1).
        pose proof (Z.rem_bound_pos_pos q 2 ltac:(lia) ltac:(lia)). lia.
  - destruct (Z.ltb_spec (Z.abs f) h) as [Hlow|Hhigh].
    + rewrite Hstay. split; lia.
    + assert (Hq0 : q <> 0) by lia.
      rewrite (Haway Hq0). split; lia.
Qed.

(** With [clamp], a finite number is clamped between the bounds and
    rounded by [evenRound]: to the nearest integer, the even one at a
    tie, unless the clamped number lies strictly between one half and 1
    in magnitude. *)
Lemma convertToInt_clamp_nearest (StringToNumber : string -> number)
    (name : string) (value : Value) (bitLength : Z) (options : Options)
    (n : Z) :
  bitLength ∈ [8; 16; 32; 64] ->
  default false (enforceRange options) = false ->
  default false (clamp options) = true ->
  ToNumber StringToNumber value = Normal (Fin n) ->
  let c :=
    Z.min (Z.max n (lowerBoundZ bitLength (default false (signed options))
                    * unit_scale))
      (upperBoundZ bitLength (default false (signed options)) * unit_scale) in
  Z.quot c unit_scale <> 0 \/ Z.abs (Z.rem c unit_scale) <= unit_scale / 2 ->
  exists k,
    convertToInt StringToNumber name value bitLength options = Normal (of_Z k) /\
    2 * Z.abs (c - k * unit_scale) <= unit_scale /\
    (2 * Z.abs (c - k * unit_scale) = unit_scale -> Z.even k = true).
Proof.
  intros Hb Henforce Hclamp Hx c Hcase.
  pose proof (bounds_integers_range bitLength (default false (signed options))
                Hb) as [HL HH].
  pose proof unit_scale_pos as Hu.
  destruct (evenRound_nearest c) as (k & Hround & Hnear); [subst c; nia|exact Hcase|].
  exists k. split; [|exact Hnear].
  unfold convertToInt.
  rewrite Hx, Henforce, Hclamp, bounds_integers by exact Hb.
  cbn [mbind Result_bind andb]. rewrite normalize_Fin.
  cbn [NumberIsNaN negb]. rewrite clamp_Fin by lia.
  fold c. now rewrite Hround.
Qed.

(** C3: 2.5 and 3.5 are clamped and rounded to 2 and to 4.  At 0.75,
    whose nearest integer is 1, [evenRound] returns 0: the integer part
    is 0, so is its sign, and adding it does not move away from 0.
    The same happens at -0.75. *)
Theorem convertToInt_clamp_rounding :
  convertToInt SampleHost.StringToNumber "x" (Num (Fin (5 * (unit_scale / 2))))
    8 clampOptions = Normal (of_Z 2) /\
  convertToInt SampleHost.StringToNumber "x" (Num (Fin (7 * (unit_scale / 2))))
    8 clampOptions = Normal (of_Z 4) /\
  evenRound (Fin (3 * (unit_scale / 4))) = of_Z 0 /\
  convertToInt SampleHost.StringToNumber "x" (Num (Fin (3 * (unit_scale / 4))))
    8 clampOptions = Normal (of_Z 0) /\
  convertToInt SampleHost.StringToNumber "x"
    (Num (Fin (- (3 * (unit_scale / 4))))) 8
    {| signed := Some true; enforceRange := None; clamp := Some true;
       context := None; prefix := None; code := None |} = Normal (of_Z 0) /\
  Z.abs (3 * (unit_scale / 4) - 1 * unit_scale)
  < Z.abs (3 * (unit_scale / 4) - 0 * unit_scale).
Proof. repeat split; vm_compute; reflexivity. Qed.

(** ** Converting a converted value again *)

(** C5: with [enforceRange], -0.5 converts to the truncation -0, and
    converting -0 again gives +0: the two results are equal for [===]
    but are not the same value. *)
Theorem convertToInt_enforceRange_negative_zero :
  convertToInt SampleHost.StringToNumber "x" (Num (Fin (- (unit_scale / 2)))) 8
    enforceRangeOptions = Normal NegZero /\
  convertToInt SampleHost.StringToNumber "x" (Num NegZero) 8
    enforceRangeOptions = Normal (Fin 0) /\
  NegZero <> Fin 0 /\
  strict_eq NegZero (Fin 0) = true.
Proof.
  split; [vm_compute; reflexivity|].
  split; [vm_compute; reflexivity|].
  split; [discriminate|reflexivity].
Qed.





(** ** The DOMString converter *)

(** C9, counterexample: the error raised for a symbol does not carry the
    code [ERR_INVALID_ARG_TYPE]. *)
Lemma DOMString_symbol_not_type_error :
  exists e,
    converters_DOMString SampleHost.NumberToString (Symbol "s") = Throw e /\
    error_code e <> Some "ERR_INVALID_ARG_TYPE"%string.
Proof.
  eexists. split; [reflexivity|]. simpl. discriminate.
Qed.

(** C9, amended: for every symbol the DOMString converter raises
    [ERR_INVALID_ARG_VALUE], built from the label ["value"] and the
    symbol itself; its kind code is [ERR_INVALID_ARG_VALUE]. *)
Theorem DOMString_symbol_invalid_value
    (NumberToString : number -> string) (description : string) :
  converters_DOMString NumberToString (Symbol description)
    = Throw (ERR_INVALID_ARG_VALUE "value" (Symbol description)) /\
  error_code (ERR_INVALID_ARG_VALUE "value" (Symbol description))
    = Some "ERR_INVALID_ARG_VALUE"%string.
Proof. split; reflexivity. Qed.

(** ** Messages and codes of [makeException] *)





(** ** The enum converter *)



(** ** The sequence converter *)

Section SequenceProperties.

Context {T : Type}.
Variable converter : Value -> Options -> Result T.

Lemma sequenceLoop_step (fuel : nat) (iter : Value) (opts : Options)
    (array : list T) (k : nat) :
  stepAdvances converter iter opts (length array) -> k = length array ->
  exists val,
    sequenceLoop converter (S fuel) iter opts array k
    = sequenceLoop converter fuel iter opts (array ++ [val]) (S k).
Proof.
  intros (res & d & v & val & Hnext & Hres & Hdone & Hd & Hvalue & Hconv) ->.
  exists val. simpl. rewrite Hnext.
  destruct res; try congruence; rewrite Hdone;
    (destruct d as [| |[|]| | | | |]; try congruence;
     rewrite Hvalue, Hconv; reflexivity).
Qed.

Lemma sequenceLoop_advance (n fuel : nat) (iter : Value) (opts : Options) :
  forall (array : list T),
    (forall i, (length array <= i < length array + n)%nat ->
               stepAdvances converter iter opts i) ->
    exists array',
      length array' = (length array + n)%nat /\
      sequenceLoop converter (n + fuel) iter opts array (length array)
      = sequenceLoop converter fuel iter opts array' (length array').
Proof.
  induction n as [|n IH]; intros array Hsteps.
  - exists array. split; [lia|reflexivity].
  - destruct (sequenceLoop_step (n + fuel) iter opts array (length array))
      as [val Hstep]; [apply Hsteps; lia|reflexivity|].
    destruct (IH (array ++ [val])) as (array' & Hlen & Hloop).
    { intros i Hi. apply Hsteps. rewrite length_app in Hi. simpl in Hi. lia. }
    exists array'. rewrite length_app in Hlen, Hloop. simpl in Hlen, Hloop.
    split; [lia|].
    change (S n + fuel)%nat with (S (n + fuel)). rewrite Hstep.
    replace (S (length array)) with (length array + 1)%nat by lia.
    exact Hloop.
Qed.



End SequenceProperties.



(** ** The options handed to the element converter *)

Section ElementOptions.

Context {T : Type}.
Variable converter : Value -> Options -> Result T.

(** One iteration of the logged loop: it ends without a call of the
    element converter, or the call throws, or the call returns and the
    loop goes on. *)
Lemma sequenceLoopCalls_step (fuel : nat) (iter : Value) (opts : Options)
    (array : list T) (k : nat) :
  (sequenceLoopCalls converter (S fuel) iter opts array k
   = ([], sequenceLoop converter (S fuel) iter opts array k) /\
   forall ws,
     sequenceLoop converter (S fuel) iter opts array k = Some (Normal ws) ->
     ws = array) \/
  (exists v e,
     converter v (elementOptions opts (length array)) = Throw e /\
     sequenceLoopCalls converter (S fuel) iter opts array k
     = ([(v, elementOptions opts (length array))], Some (Throw e)) /\
     sequenceLoop converter (S fuel) iter opts array k = Some (Throw e)) \/
  (exists v val,
     converter v (elementOptions opts (length array)) = Normal val /\
     sequenceLoopCalls converter (S fuel) iter opts array k
     = ((v, elementOptions opts (length array))
          :: fst (sequenceLoopCalls converter fuel iter opts (array ++ [val])
                    (S k)),
        snd (sequenceLoopCalls converter fuel iter opts (array ++ [val])
               (S k))) /\
     sequenceLoop converter (S fuel) iter opts array k
     = sequenceLoop converter fuel iter opts (array ++ [val]) (S k)).
Proof.
  cbn [sequenceLoopCalls sequenceLoop].
  destruct (callNext iter k) as [res|e];
    [|left; split; [reflexivity|discriminate]].
  assert (Hvalue : forall r : Result Value,
    (match r with
     | Throw e => (@nil (Value * Options), Some (Throw e))
     | Normal v =>
         match converter v (elementOptions opts (length array)) with
         | Throw e =>
             ([(v, elementOptions opts (length array))], Some (Throw e))
         | Normal val =>
             let rest :=
               sequenceLoopCalls converter fuel iter opts (array ++ [val])
                 (S k) in
             ((v, elementOptions opts (length array)) :: fst rest, snd rest)
         end
     end
     = ([],
        match r with
        | Throw e => Some (Throw e)
        | Normal v =>
            match converter v (elementOptions opts (length array)) with
            | Throw e => Some (Throw e)
            | Normal val =>
                sequenceLoop converter fuel iter opts (array ++ [val]) (S k)
            end
        end) /\
     forall ws,
       match r with
       | Throw e => Some (Throw e)
       | Normal v =>
           match converter v (elementOptions opts (length array)) with
           | Throw e => Some (Throw e)
           | Normal val =>
               sequenceLoop converter fuel iter opts (array ++ [val]) (S k)
           end
       end = Some (Normal ws) -> ws = array) \/
    (exists v e,
       converter v (elementOptions opts (length array)) = Throw e /\
       match r with
       | Throw e => (@nil (Value * Options), Some (Throw e))
       | Normal v =>
           match converter v (elementOptions opts (length array)) with
           | Throw e =>
               ([(v, elementOptions opts (length array))], Some (Throw e))
           | Normal val =>
               let rest :=
                 sequenceLoopCalls converter fuel iter opts (array ++ [val])
                   (S k) in
               ((v, elementOptions opts (length array)) :: fst rest, snd rest)
           end
       end
       = ([(v, elementOptions opts (length array))], Some (Throw e)) /\
       match r with
       | Throw e => Some (Throw e)
       | Normal v =>
           match converter v (elementOptions opts (length array)) with
           | Throw e => Some (Throw e)
           | Normal val =>
               sequenceLoop converter fuel iter opts (array ++ [val]) (S k)
           end
       end = Some (Throw e)) \/
    (exists v val,
       converter v (elementOptions opts (length array)) = Normal val /\
       match r with
       | Throw e => (@nil (Value * Options), Some (Throw e))
       | Normal v =>
           match converter v (elementOptions opts (length array)) with
           | Throw e =>
               ([(v, elementOptions opts (length array))], Some (Throw e))
           | Normal val =>
               let rest :=
                 sequenceLoopCalls converter fuel iter opts (array ++ [val])
                   (S k) in
               ((v, elementOptions opts (length array)) :: fst rest, snd rest)
           end
       end
       = ((v, elementOptions opts (length array))
            :: fst (sequenceLoopCalls converter fuel iter opts
                      (array ++ [val]) (S k)),
          snd (sequenceLoopCalls converter fuel iter opts (array ++ [val])
                 (S k))) /\
       match r with
       | Throw e => Some (Throw e)
       | Normal v =>
           match converter v (elementOptions opts (length array)) with
           | Throw e => Some (Throw e)
           | Normal val =>
               sequenceLoop converter fuel iter opts (array ++ [val]) (S k)
           end
       end = sequenceLoop converter fuel iter opts (array ++ [val]) (S k))).
  { intros [v|e]; [|left; split; [reflexivity|discriminate]].
    destruct (converter v (elementOptions opts (length array))) as [val|e]
      eqn:Hconv.
    - right. right. exists v, val. rewrite Hconv. repeat split.
    - right. left. exists v, e. rewrite Hconv. repeat split. }
  destruct res;
    first [left; split; [reflexivity|discriminate] | idtac];
    (destruct (getProperty _ "done") as [[| |[|]| | | | |]|e];
     first [apply Hvalue
           | left; split; [reflexivity|discriminate]
           | left; split; [reflexivity|now intros ws [= <-]]]).
Qed.

(** Logging the calls does not change the outcome. *)
Lemma sequenceLoopCalls_outcome (fuel : nat) (iter : Value) (opts : Options) :
  forall (array : list T) (k : nat),
    snd (sequenceLoopCalls converter fuel iter opts array k)
    = sequenceLoop converter fuel iter opts array k.
Proof.
  induction fuel as [|fuel IH]; intros array k; [reflexivity|].
  destruct (sequenceLoopCalls_step fuel iter opts array k)
    as [[-> _]|[(v & e & _ & -> & ->)|(v & val & _ & -> & ->)]];
    cbn [snd]; [reflexivity|reflexivity|apply IH].
Qed.

(** The array that the loop returns extends the array it started from
    by one element for each logged call. *)
Lemma sequenceLoopCalls_result (fuel : nat) (iter : Value) (opts : Options) :
  forall (array : list T) (k : nat) (ws : list T),
    sequenceLoop converter fuel iter opts array k = Some (Normal ws) ->
    exists rest,
      ws = array ++ rest /\
      length rest
      = length (fst (sequenceLoopCalls converter fuel iter opts array k)).
Proof.
  induction fuel as [|fuel IH]; intros array k ws; [discriminate|].
  destruct (sequenceLoopCalls_step fuel iter opts array k)
    as [[-> Hend]|[(v & e & _ & -> & ->)|(v & val & _ & -> & ->)]]; intros Hws.
  - exists []. rewrite app_nil_r. split; [now apply Hend|reflexivity].
  - discriminate.
  - destruct (IH _ _ _ Hws) as (rest & -> & Hlen).
    exists (val :: rest). rewrite <- app_assoc. split; [reflexivity|].
    cbn [fst length]. now rewrite Hlen.
Qed.

(** The [i]-th logged call of a loop that starts with [array] has the
    options of the index [length array + i]. *)
Lemma sequenceLoopCalls_options (fuel : nat) (iter : Value) (opts : Options) :
  forall (array : list T) (k i : nat) (v : Value) (o : Options),
    fst (sequenceLoopCalls converter fuel iter opts array k) !! i
    = Some (v, o) ->
    o = elementOptions opts (length array + i).
Proof.
  induction fuel as [|fuel IH]; intros array k i v o; [discriminate|].
  destruct (sequenceLoopCalls_step fuel iter opts array k)
    as [[-> _]|[(v0 & e & _ & -> & _)|(v0 & val & _ & -> & _)]];
    cbn [fst]; [discriminate| |].
  - destruct i as [|i]; [|discriminate]. intros [= <- <-].
    f_equal. lia.
  - destruct i as [|i].
    + intros [= <- <-]. f_equal. lia.
    + intros Hi. apply IH in Hi as ->. f_equal.
      rewrite length_app. simpl. lia.
Qed.

(** What the [i]-th logged call does to the run: a call that returns
    provides the element at its index in the array that the loop
    returns; a call that throws is the last one, and the loop ends with
    its exception. *)
Lemma sequenceLoopCalls_effect (fuel : nat) (iter : Value) (opts : Options) :
  forall (array : list T) (k i : nat) (v : Value) (o : Options),
    fst (sequenceLoopCalls converter fuel iter opts array k) !! i
    = Some (v, o) ->
    match converter v o with
    | Normal w =>
        forall ws,
          sequenceLoop converter fuel iter opts array k = Some (Normal ws) ->
          ws !! (length array + i)%nat = Some w
    | Throw e =>
        sequenceLoop converter fuel iter opts array k = Some (Throw e)
    end.
Proof.
  induction fuel as [|fuel IH]; intros array k i v o; [discriminate|].
  destruct (sequenceLoopCalls_step fuel iter opts array k)
    as [[-> _]|[(v0 & e & Hconv & -> & ->)|(v0 & val & Hconv & -> & ->)]];
    cbn [fst]; [discriminate| |].
  - destruct i as [|i]; [|discriminate]. intros [= <- <-].
    rewrite Hconv. reflexivity.
  - destruct i as [|i].
    + intros [= <- <-]. rewrite Hconv. intros ws Hws.
      destruct (sequenceLoopCalls_result _ _ _ _ _ _ Hws) as (rest & -> & _).
      rewrite Nat.add_0_r, <- app_assoc.
      rewrite lookup_app_r by lia. now rewrite Nat.sub_diag.
    + intros Hi. apply IH in Hi.
      destruct (converter v o) as [w|e]; [|exact Hi].
      intros ws Hws. rewrite <- (Hi ws Hws). f_equal.
      rewrite length_app. simpl. lia.
Qed.

(** C10: when the caller's options have no [context], every call of the
    element converter that the sequence converter makes receives, for
    the element at index [i], options whose context is the string
    ["undefined[i]"].  The calls are those logged by
    [createSequenceConverterCalls], whose outcome is the one of
    [createSequenceConverter] on every input: the [i]-th call converts
    the element at index [i], so that its result is the [i]-th element
    of the array when the conversion returns one, and its exception is
    the outcome of the conversion when it throws.  This holds for every
    element converter, iterable and number of iterations, whether the
    conversion returns, throws or is still running. *)
Theorem createSequenceConverter_element_context (fuel : nat) (V : Value)
    (opts : Options) :
  context opts = None ->
  snd (createSequenceConverterCalls converter fuel V opts)
  = createSequenceConverter converter fuel V opts /\
  (forall ws,
     createSequenceConverter converter fuel V opts = Some (Normal ws) ->
     length ws
     = length (fst (createSequenceConverterCalls converter fuel V opts))) /\
  forall (i : nat) (v : Value) (o : Options),
    fst (createSequenceConverterCalls converter fuel V opts) !! i
    = Some (v, o) ->
    context o = Some ("undefined[" +:+ decimal i +:+ "]") /\
    match converter v o with
    | Normal w =>
        forall ws,
          createSequenceConverter converter fuel V opts = Some (Normal ws) ->
          ws !! i = Some w
    | Throw e =>
        createSequenceConverter converter fuel V opts = Some (Throw e)
    end.
Proof.
  intros Hcontext.
  unfold createSequenceConverterCalls, createSequenceConverter.
  destruct (negb (type V =? "Object")%string);
    [split; [reflexivity|split; [discriminate|intros i v o Hi; discriminate Hi]]|].
  destruct (callSymbolIterator V) as [iter|e];
    [|split; [reflexivity|split; [discriminate|intros i v o Hi; discriminate Hi]]].
  assert (Hloop :
    snd (sequenceLoopCalls converter fuel iter opts [] 0)
    = sequenceLoop converter fuel iter opts [] 0 /\
    (forall ws,
       sequenceLoop converter fuel iter opts [] 0 = Some (Normal ws) ->
       length ws
       = length (fst (sequenceLoopCalls converter fuel iter opts [] 0))) /\
    forall (i : nat) (v : Value) (o : Options),
      fst (sequenceLoopCalls converter fuel iter opts [] 0) !! i
      = Some (v, o) ->
      context o = Some ("undefined[" +:+ decimal i +:+ "]") /\
      match converter v o with
      | Normal w =>
          forall ws,
            sequenceLoop converter fuel iter opts [] 0 = Some (Normal ws) ->
            ws !! i = Some w
      | Throw e => sequenceLoop converter fuel iter opts [] 0 = Some (Throw e)
      end).
  { split; [apply sequenceLoopCalls_outcome|]. split.
    - intros ws Hws.
      destruct (sequenceLoopCalls_result _ _ _ _ _ _ Hws) as (rest & -> & Hlen).
      exact Hlen.
    - intros i v o Hi. split.
      + apply sequenceLoopCalls_options in Hi as ->.
        unfold elementOptions. cbn [context length Nat.add].
        now rewrite Hcontext.
      + exact (sequenceLoopCalls_effect _ _ _ _ _ _ _ _ Hi). }
  destruct iter;
    first [exact Hloop
          | split; [reflexivity|split; [discriminate|intros i v o Hi; discriminate Hi]]].
Qed.

End ElementOptions.

Lemma createSequenceConverter_element_context_witness :
  context (elementOptions kEmptyObject 1) = Some "undefined[1]"%string /\
  createSequenceConverter
    (createEnumConverter SampleHost.NumberToString "Color" ["a"; "b"]%string)
    5
    (SampleHost.iterable
       (SampleHost.iteratorOf
          [SampleHost.valueResult (Str "a"); SampleHost.valueResult (Str "c")]
          SampleHost.doneResult))
    kEmptyObject
  = Some (Throw (makeException
                   "value 'c' is not a valid enum value of type Color."
                   (set_code (elementOptions kEmptyObject 1)
                      "ERR_INVALID_ARG_VALUE"))).
Proof.
  destruct (createSequenceConverter_element_context
              (createEnumConverter SampleHost.NumberToString "Color"
                 ["a"; "b"]%string)
              5
              (SampleHost.iterable
                 (SampleHost.iteratorOf
                    [SampleHost.valueResult (Str "a");
                     SampleHost.valueResult (Str "c")]
                    SampleHost.doneResult))
              kEmptyObject eq_refl) as (_ & _ & Hcalls).
  exact (Hcalls 1%nat (Str "c") (elementOptions kEmptyObject 1) eq_refl).
Defined.

(** * Further properties of the converters *)

(** ** [pow2] and the bounds on every bit length *)

(** [pow2] is the exact power of two on every exponent from 0 to 1023
    and [Infinity] above; on a negative exponent the shift count wraps
    modulo 32, so that the result is a 32-bit integer, negative when
    the count wraps to 31. *)
Theorem pow2_every_exponent (e : Z) :
  (0 <= e <= 1023 -> pow2 e = of_Z (2 ^ e)) /\
  (1023 < e -> pow2 e = PosInf) /\
  (e < 0 -> pow2 e = of_Z (to_int32 (2 ^ (e mod 32)))) /\
  pow2 (-1) = of_Z (- 2 ^ 31).
Proof.
  split; [apply pow2_power|]. split; [|split].
  - intros He. unfold pow2, MathPow2.
    destruct (Z.ltb_spec e 31); [lia|].
    destruct (Z.eqb_spec e 31); [lia|].
    destruct (Z.eqb_spec e 32); [lia|].
    destruct (Z.ltb_spec 1023 e); [reflexivity|lia].
  - intros He. unfold pow2.
    destruct (Z.ltb_spec e 31); [|lia].
    unfold shl32. change (to_int32 1) with 1. now rewrite Z.shiftl_1_l.
  - vm_compute. reflexivity.
Qed.

Lemma pow2_every_exponent_witness :
  pow2 40 = of_Z (2 ^ 40) /\ pow2 2000 = PosInf /\
  pow2 (-33) = of_Z (to_int32 (2 ^ ((-33) mod 32))).
Proof.
  destruct (pow2_every_exponent 40) as (Hexact & _).
  destruct (pow2_every_exponent 2000) as (_ & Hinf & _).
  destruct (pow2_every_exponent (-33)) as (_ & _ & Hneg & _).
  split; [apply Hexact; lia|]. split; [apply Hinf; lia|apply Hneg; lia].
Defined.

(** For every bit length from 1 to 53, and for 64, the bounds computed
    in binary64 are exactly the integers of the target type: 0 and
    [2^b - 1] unsigned, [-2^(b-1)] and [2^(b-1) - 1] signed, and
    [2^53 - 1] in magnitude for 64 bits; the lower bound is never
    above 0 and the upper bound never below it. *)
Theorem bounds_exact (bitLength : Z) (signed : bool) :
  1 <= bitLength <= 53 \/ bitLength = 64 ->
  bounds bitLength signed
  = (of_Z (lowerBoundZ bitLength signed), of_Z (upperBoundZ bitLength signed)) /\
  lowerBoundZ bitLength signed <= 0 <= upperBoundZ bitLength signed.
Proof.
  intros [Hb| ->].
  - assert (Hfull : 2 <= 2 ^ bitLength <= 2 ^ 53).
    { split; [change 2 with (2 ^ 1) at 1|]; apply Z.pow_le_mono_r; lia. }
    assert (Hhalf : 1 <= 2 ^ (bitLength - 1) <= 2 ^ 53).
    { split; [change 1 with (2 ^ 0)|]; apply Z.pow_le_mono_r; lia. }
    unfold bounds, lowerBoundZ, upperBoundZ.
    destruct (Z.eqb_spec bitLength 64); [lia|].
    rewrite !pow2_power by lia.
    destruct signed; cbn [negb].
    + rewrite neg_of_Z by lia.
      rewrite sub_of_Z by (try apply representable_of_Z; lia).
      split; [reflexivity|lia].
    + rewrite sub_of_Z by (try apply representable_of_Z; lia).
      split; [reflexivity|lia].
  - destruct signed; (split; [vm_compute; reflexivity|]);
      vm_compute; split; discriminate.
Qed.

Lemma bounds_exact_witness :
  bounds 24 true = (of_Z (- 2 ^ 23), of_Z (2 ^ 23 - 1)).
Proof.
  destruct (bounds_exact 24 true) as [Hbounds _]; [lia|].
  rewrite Hbounds. vm_compute. reflexivity.
Defined.

(** ** Negative zero *)

Lemma round_double_not_NegZero (n : Z) : round_double n <> NegZero.
Proof.
  unfold round_double. cbn zeta.
  destruct (overflow_threshold <=? _); [destruct (n <? 0)|]; discriminate.
Qed.

Lemma add_NegZero_inv (x y : number) :
  add x y = NegZero -> x = NegZero /\ y = NegZero.
Proof.
  destruct x, y; try discriminate; try (split; reflexivity).
  cbn [add]. intros H. now apply round_double_not_NegZero in H.
Qed.

Lemma normalized_not_NegZero (r : number) :
  (if strict_eq r (of_Z 0) then of_Z 0 else r) <> NegZero.
Proof.
  destruct (strict_eq r (of_Z 0)) eqn:E; [discriminate|].
  intros ->. rewrite strict_eq_NegZero_zero in E. discriminate E.
Qed.

Lemma modulo_not_NegZero (x y : number) : modulo x y <> NegZero.
Proof. unfold modulo. cbn zeta. apply normalized_not_NegZero. Qed.

Lemma evenRound_not_NegZero (x : number) : evenRound x <> NegZero.
Proof.
  unfold evenRound. cbn zeta.
  assert (Hi : add (integerPart x) (of_Z 0) <> NegZero).
  { intros H. apply add_NegZero_inv in H as [_ H]. discriminate H. }
  assert (Hsum : add (add (integerPart x) (of_Z 0))
                   (MathSign (add (integerPart x) (of_Z 0))) <> NegZero).
  { intros H. apply add_NegZero_inv in H as [H _]. now apply Hi. }
  destruct (strict_eq (MathAbs _) _).
  - destruct (strict_eq (rem _ _) _); assumption.
  - apply normalized_not_NegZero.
Qed.

(** [modulo] never returns -0, whatever its arguments; on integers it
    is the remainder of the truncated division, which is smaller than
    the divisor in magnitude and takes the sign of the dividend, not of
    the divisor. *)
Theorem modulo_remainder (a b : Z) (x y : number) :
  modulo x y <> NegZero /\
  (b <> 0 ->
   modulo (of_Z a) (of_Z b) = of_Z (Z.rem a b) /\
   Z.abs (Z.rem a b) < Z.abs b /\ 0 <= Z.rem a b * a).
Proof.
  split; [apply modulo_not_NegZero|].
  intros Hb. split; [now apply modulo_of_Z|].
  split; [now apply Z.rem_bound_abs|].
  apply Z.rem_sign_mul. exact Hb.
Qed.

Lemma modulo_remainder_witness :
  modulo (of_Z (-7)) (of_Z 4) = of_Z (-3).
Proof.
  destruct (modulo_remainder (-7) 4 NaN NaN) as [_ Hrem].
  destruct Hrem as (Hmodulo & _); [discriminate|].
  rewrite Hmodulo. reflexivity.
Defined.

(** Without [enforceRange], [convertToInt] never returns -0, for any
    input, bit length and other options. *)
Theorem convertToInt_never_negative_zero (StringToNumber : string -> number)
    (name : string) (value : Value) (bitLength : Z) (options : Options)
    (y : number) :
  default false (enforceRange options) = false ->
  convertToInt StringToNumber name value bitLength options = Normal y ->
  y <> NegZero.
Proof.
  intros Henforce. unfold convertToInt. rewrite Henforce.
  destruct (bounds bitLength (default false (signed options))) as [lo hi].
  destruct (ToNumber StringToNumber value) as [x|e];
    cbn [mbind Result_bind]; [|discriminate].
  destruct (default false (clamp options) && _).
  { intros [= <-]. apply evenRound_not_NegZero. }
  destruct (NumberIsNaN _ || _ || _ || _).
  { intros [= <-]. discriminate. }
  cbn zeta. destruct (default false (signed options) && _).
  - intros [= <-] H. unfold sub in H. apply add_NegZero_inv in H as [H _].
    now apply modulo_not_NegZero in H.
  - intros [= <-]. apply modulo_not_NegZero.
Qed.

Lemma convertToInt_never_negative_zero_witness :
  convertToInt SampleHost.StringToNumber "x" (Num (Fin (- (unit_scale / 2)))) 8
    kEmptyObject = Normal (Fin 0) /\
  Fin 0 <> NegZero.
Proof.
  assert (Hrun : convertToInt SampleHost.StringToNumber "x"
                   (Num (Fin (- (unit_scale / 2)))) 8 kEmptyObject
                 = Normal (Fin 0)) by (vm_compute; reflexivity).
  split; [exact Hrun|].
  exact (convertToInt_never_negative_zero SampleHost.StringToNumber "x"
           (Num (Fin (- (unit_scale / 2)))) 8 kEmptyObject (Fin 0)
           eq_refl Hrun).
Defined.

(** ** [evenRound] *)

(** On a number of magnitude at most [2^53 - 1], [evenRound] returns an
    integer [k].  Unless the number lies strictly between one half and
    1 in magnitude, [k] is the nearest integer, the even one at a tie;
    between one half and 1 in magnitude, [k] is 0. *)
Theorem evenRound_rounding (n : Z) :
  Z.abs n <= (2 ^ 53 - 1) * unit_scale ->
  exists k,
    evenRound (Fin n) = of_Z k /\
    (~ (unit_scale / 2 < Z.abs n < unit_scale) ->
     2 * Z.abs (n - k * unit_scale) <= unit_scale /\
     (2 * Z.abs (n - k * unit_scale) = unit_scale -> Z.even k = true)) /\
    (unit_scale / 2 < Z.abs n < unit_scale -> k = 0).
Proof.
  intros Hn. pose proof unit_scale_pos as Hu.
  assert (Hhalf : unit_scale / 2 < unit_scale) by reflexivity.
  assert (Hquot : Z.abs n < unit_scale -> Z.quot n unit_scale = 0).
  { intros Hsmall. apply Z.quot_small_iff; lia. }
  assert (Hrem : Z.abs n < unit_scale -> Z.rem n unit_scale = n).
  { intros Hsmall. apply Z.rem_small_iff; lia. }
  destruct (Z.lt_ge_cases (unit_scale / 2) (Z.abs n)) as [Hhigh|Hlow];
    [destruct (Z.lt_ge_cases (Z.abs n) unit_scale) as [Hgap|Hbig]|].
  - exists 0. split; [|split; [intros Hnot; lia|reflexivity]].
    rewrite evenRound_Fin by exact Hn. cbn zeta.
    rewrite Hquot, Hrem by lia.
    destruct (Z.eqb_spec (Z.abs n) (unit_scale / 2)); [lia|].
    destruct (Z.ltb_spec (Z.abs n) (unit_scale / 2)); [lia|reflexivity].
  - destruct (evenRound_nearest n Hn) as (k & Hk & Hnear).
    { left. intros Hq. apply Z.quot_small_iff in Hq; lia. }
    exists k. split; [exact Hk|]. split; [intros _; exact Hnear|lia].
  - destruct (evenRound_nearest n Hn) as (k & Hk & Hnear).
    { right. rewrite Hrem; [exact Hlow|]. clear - Hlow Hhalf. lia. }
    exists k. split; [exact Hk|]. split; [intros _; exact Hnear|].
    intros [Hgap _]. clear - Hgap Hlow. lia.
Qed.

Lemma evenRound_rounding_witness :
  exists k,
    evenRound (Fin (7 * (unit_scale / 2))) = of_Z k /\
    2 * Z.abs (7 * (unit_scale / 2) - k * unit_scale) <= unit_scale /\
    (2 * Z.abs (7 * (unit_scale / 2) - k * unit_scale) = unit_scale ->
     Z.even k = true).
Proof.
  destruct (evenRound_rounding (7 * (unit_scale / 2))) as (k & Hk & Hnear & _);
    [vm_compute; discriminate|].
  exists k. split; [exact Hk|]. apply Hnear.
  vm_compute. intros [_ H]. discriminate H.
Defined.

(** [evenRound] leaves alone what it returns: rounding a rounded number
    again changes nothing, for every number of magnitude at most
    [2^53 - 1] and for NaN, the infinities and -0. *)
Theorem evenRound_idempotent (x : number) :
  Z.abs (units x) <= (2 ^ 53 - 1) * unit_scale ->
  evenRound (evenRound x) = evenRound x.
Proof.
  intros Hx. pose proof unit_scale_pos as Hu.
  destruct x as [| | | |n]; try reflexivity.
  cbn [units] in Hx.
  destruct (evenRound_between n (- (2 ^ 53 - 1)) (2 ^ 53 - 1))
    as (k & Hk & Hrange); [lia|lia|lia|].
  rewrite Hk. apply evenRound_of_Z. lia.
Qed.

Lemma evenRound_idempotent_witness :
  evenRound (evenRound (Fin (5 * (unit_scale / 2))))
  = evenRound (Fin (5 * (unit_scale / 2))).
Proof.
  apply (evenRound_idempotent (Fin (5 * (unit_scale / 2)))).
  vm_compute. discriminate.
Defined.

(** ** The three modes of [convertToInt] on the standard bit lengths *)

Lemma bounds_fit (bitLength : Z) (signed : bool) (k : Z) :
  bitLength ∈ [8; 16; 32; 64] ->
  lowerBoundZ bitLength signed <= k <= upperBoundZ bitLength signed ->
  Z.abs k < 2 ^ bitLength /\ (signed = true -> k < 2 ^ (bitLength - 1)).
Proof.
  intros Hb.
  repeat (apply elem_of_cons in Hb as [-> | Hb];
          [destruct signed; cbv [lowerBoundZ upperBoundZ]; simpl;
           intros Hk; (split; [lia|intros; lia || discriminate])|]).
  now apply elem_of_nil in Hb.
Qed.

(** With [clamp] and without [enforceRange], [convertToInt] rounds the
    clamped number. *)
Lemma convertToInt_clamp_value (StringToNumber : string -> number)
    (name : string) (value : Value) (bitLength : Z) (options : Options)
    (x : number) :
  bitLength ∈ [8; 16; 32; 64] ->
  default false (enforceRange options) = false ->
  default false (clamp options) = true ->
  ToNumber StringToNumber value = Normal x ->
  NumberIsNaN x = false ->
  convertToInt StringToNumber name value bitLength options
  = Normal (evenRound
              (Fin (clampUnits
                      (lowerBoundZ bitLength (default false (signed options)))
                      (upperBoundZ bitLength (default false (signed options)))
                      x))).
Proof.
  intros Hb Henforce Hclamp Hx Hnan.
  pose proof (bounds_integers_range bitLength (default false (signed options))
                Hb) as [HL HH].
  unfold convertToInt.
  rewrite Hx, Henforce, Hclamp, bounds_integers by exact Hb.
  cbn [mbind Result_bind andb].
  remember (lowerBoundZ bitLength (default false (signed options))) as L.
  remember (upperBoundZ bitLength (default false (signed options))) as H.
  destruct x as [| | | |n]; try discriminate.
  - change (strict_eq PosInf (of_Z 0)) with false.
    cbn [NumberIsNaN negb]. cbn iota.
    change (MathMin (MathMax PosInf (of_Z L)) (of_Z H)) with (of_Z H).
    reflexivity.
  - change (strict_eq NegInf (of_Z 0)) with false.
    cbn [NumberIsNaN negb]. cbn iota.
    change (MathMax NegInf (of_Z L)) with (of_Z L).
    rewrite MathMin_of_Z, Z.min_l by lia. reflexivity.
  - rewrite strict_eq_NegZero_zero.
    change (negb (NumberIsNaN (of_Z 0))) with true. cbn iota.
    unfold of_Z at 1. rewrite clamp_Fin by lia. reflexivity.
  - rewrite normalize_Fin. cbn [NumberIsNaN negb].
    rewrite clamp_Fin by lia. reflexivity.
Qed.

(** With [clamp] and without [enforceRange], the result is always an
    integer between the bounds: the upper bound for every number at or
    above it, [Infinity] included, the lower bound for every number at
    or below it, [-Infinity] included, and 0 for NaN. *)
Theorem convertToInt_clamp_saturates (StringToNumber : string -> number)
    (name : string) (value : Value) (bitLength : Z) (options : Options)
    (x : number) :
  bitLength ∈ [8; 16; 32; 64] ->
  default false (enforceRange options) = false ->
  default false (clamp options) = true ->
  ToNumber StringToNumber value = Normal x ->
  let L := lowerBoundZ bitLength (default false (signed options)) in
  let H := upperBoundZ bitLength (default false (signed options)) in
  (exists k,
     convertToInt StringToNumber name value bitLength options = Normal (of_Z k)
     /\ L <= k <= H) /\
  (ge x (of_Z H) = true ->
   convertToInt StringToNumber name value bitLength options = Normal (of_Z H)) /\
  (ge (of_Z L) x = true ->
   convertToInt StringToNumber name value bitLength options = Normal (of_Z L)) /\
  (NumberIsNaN x = true ->
   convertToInt StringToNumber name value bitLength options = Normal (of_Z 0)).
Proof.
  intros Hb Henforce Hclamp Hx L H.
  pose proof (bounds_integers_range bitLength (default false (signed options))
                Hb) as [HL HH].
  fold L in HL. fold H in HH.
  pose proof unit_scale_pos as Hu.
  assert (Hscaled : L * unit_scale <= 0 <= H * unit_scale) by nia.
  destruct (NumberIsNaN x) eqn:Hnan.
  - destruct x; try discriminate.
    assert (Hzero : convertToInt StringToNumber name value bitLength options
                    = Normal (of_Z 0)).
    { unfold convertToInt. rewrite Hx, Henforce, Hclamp.
      destruct (bounds bitLength (default false (signed options))).
      reflexivity. }
    split; [exists 0; split; [exact Hzero|lia]|].
    split; [discriminate|]. split; [discriminate|]. intros _. exact Hzero.
  - rewrite (convertToInt_clamp_value StringToNumber name value bitLength
               options x Hb Henforce Hclamp Hx Hnan).
    fold L H.
    assert (Hrange : L * unit_scale <= clampUnits L H x <= H * unit_scale).
    { destruct x; cbn [clampUnits units]; lia. }
    split; [|split; [|split; [|discriminate]]].
    + destruct (evenRound_between (clampUnits L H x) L H)
        as (k & Hk & Hkrange); [lia|lia|exact Hrange|].
      exists k. now rewrite Hk.
    + intros Hge.
      assert (Hunits : clampUnits L H x = H * unit_scale).
      { destruct x as [| | | |n]; try discriminate; cbn [clampUnits units].
        - reflexivity.
        - unfold of_Z in Hge. cbn [ge lt units] in Hge.
          apply negb_true_iff, Z.ltb_ge in Hge. lia.
        - unfold of_Z in Hge. cbn [ge lt units] in Hge.
          apply negb_true_iff, Z.ltb_ge in Hge. lia. }
      rewrite Hunits. change (Fin (H * unit_scale)) with (of_Z H).
      now rewrite evenRound_of_Z by lia.
    + intros Hge.
      assert (Hunits : clampUnits L H x = L * unit_scale).
      { destruct x as [| | | |n]; try discriminate; cbn [clampUnits units].
        - reflexivity.
        - unfold of_Z in Hge. cbn [ge lt units] in Hge.
          apply negb_true_iff, Z.ltb_ge in Hge. lia.
        - unfold of_Z in Hge. cbn [ge lt units] in Hge.
          apply negb_true_iff, Z.ltb_ge in Hge. lia. }
      rewrite Hunits. change (Fin (L * unit_scale)) with (of_Z L).
      now rewrite evenRound_of_Z by lia.
Qed.

Lemma convertToInt_clamp_saturates_witness :
  convertToInt SampleHost.StringToNumber "x" (Num (of_Z 1000)) 8 clampOptions
  = Normal (of_Z 255) /\
  convertToInt SampleHost.StringToNumber "x" (Num NegInf) 8 clampOptions
  = Normal (of_Z 0).
Proof.
  destruct (convertToInt_clamp_saturates SampleHost.StringToNumber "x"
              (Num (of_Z 1000)) 8 clampOptions (of_Z 1000))
    as (_ & Hupper & _); [repeat constructor|reflexivity|reflexivity|reflexivity|].
  destruct (convertToInt_clamp_saturates SampleHost.StringToNumber "x"
              (Num NegInf) 8 clampOptions NegInf)
    as (_ & _ & Hlower & _); [repeat constructor|reflexivity|reflexivity|reflexivity|].
  split.
  - rewrite Hupper; [|vm_compute; reflexivity]. vm_compute. reflexivity.
  - rewrite Hlower; [|vm_compute; reflexivity]. vm_compute. reflexivity.
Defined.

Lemma convertToInt_clamp_nearest_witness :
  exists k,
    convertToInt SampleHost.StringToNumber "x"
      (Num (Fin (5 * (unit_scale / 2)))) 8 clampOptions = Normal (of_Z k) /\
    2 * Z.abs
          (Z.min
             (Z.max (5 * (unit_scale / 2))
                (lowerBoundZ 8 (default false (signed clampOptions))
                 * unit_scale))
             (upperBoundZ 8 (default false (signed clampOptions)) * unit_scale)
           - k * unit_scale)
    <= unit_scale.
Proof.
  destruct (convertToInt_clamp_nearest SampleHost.StringToNumber "x"
              (Num (Fin (5 * (unit_scale / 2)))) 8 clampOptions
              (5 * (unit_scale / 2)))
    as (k & Hk & Hnear & _);
    [repeat constructor|reflexivity|reflexivity|reflexivity
    |left; vm_compute; discriminate|].
  exists k. split; [exact Hk|exact Hnear].
Defined.

(** The truncation of [n] lies between [L] and [H] exactly when [n]
    is less than one unit beyond them. *)
Lemma truncation_range (n L H : Z) :
  L <= 0 <= H ->
  L <= Z.quot n unit_scale <= H
  <-> (L - 1) * unit_scale < n < (H + 1) * unit_scale.
Proof.
  intros HLH. pose proof unit_scale_pos as Hu.
  pose proof (Z.quot_rem' n unit_scale) as Hqr.
  remember (Z.quot n unit_scale) as q eqn:Eq.
  remember (Z.rem n unit_scale) as r eqn:Er.
  destruct (Z.le_ge_cases 0 n) as [Hpos|Hneg].
  - pose proof (Z.rem_bound_pos_pos n unit_scale Hu Hpos) as Hr.
    rewrite <- Er in Hr.
    pose proof (Z.quot_pos n unit_scale Hpos Hu) as Hq. rewrite <- Eq in Hq.
    split; intros Hrange; split; nia.
  - pose proof (Z.rem_bound_pos_neg n unit_scale Hu Hneg) as Hr.
    rewrite <- Er in Hr.
    assert (Hq : q <= 0).
    { subst q. rewrite <- (Z.opp_involutive n), Z.quot_opp_l by lia.
      pose proof (Z.quot_pos (- n) unit_scale ltac:(lia) Hu). lia. }
    split; intros Hrange; split; nia.
Qed.

(** With [enforceRange], a finite number is accepted exactly when its
    truncation lies between the bounds, that is when the number itself
    is less than 1 beyond them; the result is then the truncation (-0
    for a number between -1 and 0), and otherwise the error carries the
    truncated number. *)
Theorem convertToInt_enforceRange_accepts (StringToNumber : string -> number)
    (name : string) (value : Value) (bitLength : Z) (options : Options)
    (n : Z) :
  bitLength ∈ [8; 16; 32; 64] ->
  default false (enforceRange options) = true ->
  ToNumber StringToNumber value = Normal (Fin n) ->
  let L := lowerBoundZ bitLength (default false (signed options)) in
  let H := upperBoundZ bitLength (default false (signed options)) in
  let q := Z.quot n unit_scale in
  ((L - 1) * unit_scale < n < (H + 1) * unit_scale ->
   convertToInt StringToNumber name value bitLength options
   = Normal (if (q =? 0) && (n <? 0) then NegZero else of_Z q) /\
   L <= q <= H) /\
  (~ (L - 1) * unit_scale < n < (H + 1) * unit_scale ->
   convertToInt StringToNumber name value bitLength options
   = Throw (ERR_INVALID_ARG_VALUE name (Num (of_Z q)))).
Proof.
  intros Hb Henforce Hx L H q.
  pose proof (bounds_integers_range bitLength (default false (signed options))
                Hb) as [HL HH].
  fold L in HL. fold H in HH.
  pose proof unit_scale_pos as Hu.
  pose proof (truncation_range n L H ltac:(lia)) as Hiff. fold q in Hiff.
  assert (Htrunc :
    integerPart (Fin n) = if (q =? 0) && (n <? 0) then NegZero else of_Z q).
  { unfold integerPart, MathTrunc, of_Z. fold q.
    destruct (Z.eqb_spec q 0) as [->|Hq].
    - reflexivity.
    - replace (q * unit_scale =? 0) with false; [reflexivity|].
      symmetry. apply Z.eqb_neq. now apply scaled_nonzero. }
  assert (Hcheck :
    lt (integerPart (Fin n)) (of_Z L) || gt (integerPart (Fin n)) (of_Z H)
    = (q <? L) || (H <? q)).
  { rewrite Htrunc. unfold gt.
    destruct ((q =? 0) && (n <? 0)) eqn:E.
    - apply andb_true_iff in E as [E _]. apply Z.eqb_eq in E. rewrite E.
      rewrite lt_NegZero_l, lt_NegZero_r.
      change (Fin 0) with (of_Z 0). now rewrite !lt_of_Z.
    - now rewrite !lt_of_Z. }
  assert (Hrun :
    convertToInt StringToNumber name value bitLength options
    = if (q <? L) || (H <? q)
      then Throw (ERR_INVALID_ARG_VALUE name (Num (integerPart (Fin n))))
      else Normal (integerPart (Fin n))).
  { unfold convertToInt. rewrite Hx, Henforce, bounds_integers by exact Hb.
    cbn [mbind Result_bind]. rewrite normalize_Fin.
    change (NumberIsNaN (Fin n) || strict_eq (Fin n) PosInf
            || strict_eq (Fin n) NegInf) with false.
    cbn iota zeta. fold L H. now rewrite Hcheck. }
  split.
  - intros Hrange. apply Hiff in Hrange. split; [|exact Hrange].
    rewrite Hrun, Htrunc.
    destruct (Z.ltb_spec q L); [lia|]. destruct (Z.ltb_spec H q); [lia|].
    reflexivity.
  - intros Hout. rewrite Hrun, Htrunc.
    assert (Hq : ~ L <= q <= H) by (intros Hin; now apply Hiff in Hin).
    replace ((q =? 0) && (n <? 0)) with false
      by (symmetry; apply andb_false_iff; left; apply Z.eqb_neq; lia).
    destruct (Z.ltb_spec q L); [reflexivity|].
    destruct (Z.ltb_spec H q); [reflexivity|lia].
Qed.

Lemma convertToInt_enforceRange_accepts_witness :
  convertToInt SampleHost.StringToNumber "x"
    (Num (Fin (511 * (unit_scale / 2)))) 8 enforceRangeOptions
  = Normal (of_Z 255) /\
  convertToInt SampleHost.StringToNumber "x" (Num (of_Z 256)) 8
    enforceRangeOptions
  = Throw (ERR_INVALID_ARG_VALUE "x" (Num (of_Z 256))).
Proof.
  destruct (convertToInt_enforceRange_accepts SampleHost.StringToNumber "x"
              (Num (Fin (511 * (unit_scale / 2)))) 8 enforceRangeOptions
              (511 * (unit_scale / 2)))
    as [Hin _]; [repeat constructor|reflexivity|reflexivity|].
  destruct (convertToInt_enforceRange_accepts SampleHost.StringToNumber "x"
              (Num (of_Z 256)) 8 enforceRangeOptions (256 * unit_scale))
    as [_ Hout]; [repeat constructor|reflexivity|reflexivity|].
  split.
  - destruct Hin as [Hin _]; [vm_compute; split; reflexivity|].
    rewrite Hin. vm_compute. reflexivity.
  - rewrite Hout; [vm_compute; reflexivity|].
    vm_compute. intros [_ Hlt]. discriminate Hlt.
Defined.

(** In the default mode a finite number that is not negative converts
    to the integer of the target range congruent to its truncation
    modulo [2^bitLength]: between 0 and [2^bitLength - 1] unsigned,
    between [-2^(bitLength-1)] and [2^(bitLength-1) - 1] signed. *)
Theorem convertToInt_default_nonnegative (StringToNumber : string -> number)
    (name : string) (value : Value) (bitLength : Z) (options : Options)
    (n : Z) :
  1 <= bitLength <= 1023 ->
  default false (enforceRange options) = false ->
  default false (clamp options) = false ->
  ToNumber StringToNumber value = Normal (Fin n) ->
  0 <= n -> representable n = true ->
  exists k,
    convertToInt StringToNumber name value bitLength options = Normal (of_Z k) /\
    k mod 2 ^ bitLength = (n / unit_scale) mod 2 ^ bitLength /\
    (default false (signed options) = false -> 0 <= k < 2 ^ bitLength) /\
    (default false (signed options) = true ->
     - 2 ^ (bitLength - 1) <= k < 2 ^ (bitLength - 1)).
Proof.
  intros Hb Henforce Hclamp Hx Hn Hrep.
  pose proof unit_scale_pos as Hu.
  assert (Hfull : 0 < 2 ^ bitLength) by (apply Z.pow_pos_nonneg; lia).
  assert (Hsplit : 2 ^ bitLength = 2 * 2 ^ (bitLength - 1)).
  { replace bitLength with (1 + (bitLength - 1)) at 1 by lia.
    now rewrite Z.pow_add_r by lia. }
  rewrite (convertToInt_default StringToNumber name value bitLength options
             (Fin n)); try assumption; try reflexivity; try lia;
    try (apply pow2_power; lia).
  cbn [units]. rewrite Z.quot_div_nonneg by lia.
  assert (Ht : 0 <= n / unit_scale) by (apply Z.div_pos; lia).
  unfold wrap. cbn zeta. rewrite Z.rem_mod_nonneg by lia.
  pose proof (Z.mod_pos_bound (n / unit_scale) (2 ^ bitLength) Hfull) as Hm.
  remember ((n / unit_scale) mod 2 ^ bitLength) as m eqn:Em.
  assert (Hmm : m mod 2 ^ bitLength = m) by (apply Z.mod_small; lia).
  eexists. split; [reflexivity|].
  destruct (default false (signed options)); cbn [andb].
  - destruct (Z.leb_spec (2 ^ (bitLength - 1)) m).
    + split; [|split; [discriminate|intros _; lia]].
      replace (m - 2 ^ bitLength) with (m + (-1) * 2 ^ bitLength) by lia.
      now rewrite Z_mod_plus_full.
    + split; [exact Hmm|split; [discriminate|intros _; lia]].
  - split; [exact Hmm|split; [intros _; lia|discriminate]].
Qed.

Lemma convertToInt_default_nonnegative_witness :
  exists k,
    convertToInt SampleHost.StringToNumber "x" (Num (of_Z 70000)) 16
      signedOptions = Normal (of_Z k) /\
    - 2 ^ 15 <= k < 2 ^ 15.
Proof.
  destruct (convertToInt_default_nonnegative SampleHost.StringToNumber "x"
              (Num (of_Z 70000)) 16 signedOptions (70000 * unit_scale))
    as (k & Hk & _ & _ & Hsigned);
    [lia|reflexivity|reflexivity|reflexivity|vm_compute; discriminate
    |vm_compute; reflexivity|].
  exists k. split; [exact Hk|]. apply Hsigned. reflexivity.
Defined.

(** In the default mode a negative finite number is not wrapped into
    the positive range: the result is minus the remainder of the
    magnitude of its truncation by [2^bitLength], never positive,
    whether the conversion is signed or not. *)
Theorem convertToInt_default_negative (StringToNumber : string -> number)
    (name : string) (value : Value) (bitLength : Z) (options : Options)
    (n : Z) :
  1 <= bitLength <= 1023 ->
  default false (enforceRange options) = false ->
  default false (clamp options) = false ->
  ToNumber StringToNumber value = Normal (Fin n) ->
  n < 0 -> representable n = true ->
  convertToInt StringToNumber name value bitLength options
  = Normal (of_Z (- ((- n / unit_scale) mod 2 ^ bitLength))) /\
  - 2 ^ bitLength < - ((- n / unit_scale) mod 2 ^ bitLength) <= 0.
Proof.
  intros Hb Henforce Hclamp Hx Hn Hrep.
  pose proof unit_scale_pos as Hu.
  assert (Hfull : 0 < 2 ^ bitLength) by (apply Z.pow_pos_nonneg; lia).
  assert (Hhalf : 0 < 2 ^ (bitLength - 1)) by (apply Z.pow_pos_nonneg; lia).
  pose proof (Z.mod_pos_bound (- n / unit_scale) (2 ^ bitLength) Hfull) as Hm.
  split; [|lia].
  rewrite (convertToInt_default StringToNumber name value bitLength options
             (Fin n)); try assumption; try reflexivity; try lia;
    try (apply pow2_power; lia).
  cbn [units].
  assert (Hquot : Z.quot n unit_scale = - (- n / unit_scale)).
  { rewrite <- (Z.opp_involutive n) at 1.
    rewrite Z.quot_opp_l, Z.quot_div_nonneg by lia. reflexivity. }
  assert (Ht : 0 <= - n / unit_scale) by (apply Z.div_pos; lia).
  rewrite Hquot. unfold wrap. cbn zeta.
  rewrite Z.rem_opp_l, Z.rem_mod_nonneg by lia.
  replace (2 ^ (bitLength - 1) <=? - ((- n / unit_scale) mod 2 ^ bitLength))
    with false by (symmetry; apply Z.leb_gt; lia).
  now rewrite andb_false_r.
Qed.

Lemma convertToInt_default_negative_witness :
  convertToInt SampleHost.StringToNumber "x" (Num (of_Z (-300))) 8 kEmptyObject
  = Normal (of_Z (-44)).
Proof.
  destruct (convertToInt_default_negative SampleHost.StringToNumber "x"
              (Num (of_Z (-300))) 8 kEmptyObject (-300 * unit_scale))
    as [Hrun _];
    [lia|reflexivity|reflexivity|reflexivity|vm_compute; reflexivity
    |vm_compute; reflexivity|].
  rewrite Hrun. vm_compute. reflexivity.
Defined.

(** An integer between the bounds converts to itself, whatever the
    options. *)
Theorem convertToInt_in_range_integer (StringToNumber : string -> number)
    (name : string) (bitLength : Z) (options : Options) (k : Z) :
  bitLength ∈ [8; 16; 32; 64] ->
  lowerBoundZ bitLength (default false (signed options)) <= k
  <= upperBoundZ bitLength (default false (signed options)) ->
  convertToInt StringToNumber name (Num (of_Z k)) bitLength options
  = Normal (of_Z k).
Proof.
  intros Hb Hk.
  pose proof (bounds_integers_range bitLength (default false (signed options))
                Hb) as [HL HH].
  pose proof (bounds_fit bitLength (default false (signed options)) k Hb Hk)
    as [Hsmall Hsigned].
  pose proof unit_scale_pos as Hu.
  assert (Hbits : 1 <= bitLength <= 1023).
  { repeat (apply elem_of_cons in Hb as [-> | Hb]; [lia|]).
    now apply elem_of_nil in Hb. }
  assert (Hfull : 0 < 2 ^ bitLength) by (apply Z.pow_pos_nonneg; lia).
  destruct (default false (enforceRange options)) eqn:Henforce.
  - unfold convertToInt.
    rewrite Henforce, bounds_integers by exact Hb.
    cbn [mbind Result_bind ToNumber ToNumberPrimitive].
    rewrite normalize_of_Z.
    change (NumberIsNaN (of_Z k) || strict_eq (of_Z k) PosInf
            || strict_eq (of_Z k) NegInf) with false.
    cbn iota zeta. unfold integerPart, gt.
    rewrite MathTrunc_of_Z, !lt_of_Z.
    destruct (Z.ltb_spec k (lowerBoundZ bitLength (default false (signed options))));
      [lia|].
    destruct (Z.ltb_spec (upperBoundZ bitLength (default false (signed options))) k);
      [lia|reflexivity].
  - destruct (default false (clamp options)) eqn:Hclamp.
    + rewrite (convertToInt_clamp_value StringToNumber name (Num (of_Z k))
                 bitLength options (of_Z k)); try assumption; try reflexivity.
      change (clampUnits _ _ (of_Z k))
        with (Z.min (Z.max (k * unit_scale)
                       (lowerBoundZ bitLength (default false (signed options))
                        * unit_scale))
                (upperBoundZ bitLength (default false (signed options))
                 * unit_scale)).
      replace (Z.min _ _) with (k * unit_scale) by nia.
      change (Fin (k * unit_scale)) with (of_Z k).
      now rewrite evenRound_of_Z by lia.
    + assert (Hrem : Z.rem k (2 ^ bitLength) = k)
        by (apply Z.rem_small_iff; lia).
      rewrite (convertToInt_default_exact StringToNumber name (Num (of_Z k))
                 bitLength options (of_Z k)); try assumption; try reflexivity;
        try lia; try (apply pow2_power; lia).
      * change (units (of_Z k)) with (k * unit_scale).
        rewrite Z.quot_mul by lia. unfold wrap. cbn zeta. rewrite Hrem.
        destruct (default false (signed options)); [|reflexivity].
        cbn [andb].
        destruct (Z.leb_spec (2 ^ (bitLength - 1)) k); [|reflexivity].
        specialize (Hsigned eq_refl). lia.
      * intros Hs. change (units (of_Z k)) with (k * unit_scale).
        rewrite Z.quot_mul, Hrem by lia. intros Hupper.
        specialize (Hsigned Hs). lia.
Qed.

Lemma convertToInt_in_range_integer_witness :
  convertToInt SampleHost.StringToNumber "x" (Num (of_Z (-100))) 8
    {| signed := Some true; enforceRange := None; clamp := Some true;
       context := None; prefix := None; code := None |}
  = Normal (of_Z (-100)).
Proof.
  apply (convertToInt_in_range_integer SampleHost.StringToNumber "x" 8
           {| signed := Some true; enforceRange := None; clamp := Some true;
              context := None; prefix := None; code := None |} (-100));
    [repeat constructor|vm_compute; split; discriminate].
Defined.


(** ** Classification and strings *)

(** [type] puts every value in one of eight classes; the class is
    "Object" exactly for objects, callable or not, and "Null" exactly
    for [null], although [typeof null] is "object". *)
Theorem type_classification (V : Value) :
  type V ∈ ["Undefined"; "Null"; "Boolean"; "Number"; "String"; "Symbol";
            "BigInt"; "Object"]%string /\
  (type V = "Object"%string <-> exists o, V = Object o) /\
  (type V = "Null"%string <-> V = Null) /\
  typeof Null = "object"%string.
Proof.
  split; [|split; [|split; [|reflexivity]]].
  - apply list_elem_of_In.
    destruct V as [| | | | | | |o]; try (simpl; tauto).
    unfold type, typeof. destruct (callable o); simpl; tauto.
  - split.
    + destruct V as [| | | | | | |o]; try discriminate. intros _. now exists o.
    + intros [o ->]. unfold type, typeof. now destruct (callable o).
  - split.
    + destruct V as [| | | | | | |o]; try discriminate; [reflexivity|].
      unfold type, typeof. destruct (callable o); discriminate.
    + now intros ->.
Qed.

Lemma type_classification_witness :
  exists o, SampleHost.doneResult = Object o.
Proof.
  apply (proj1 (proj1 (proj2 (type_classification SampleHost.doneResult)))).
  reflexivity.
Defined.

(** The DOMString converter returns a string unchanged, and fails on no
    primitive other than a symbol: apart from the error for a symbol,
    an exception can only come from converting an object. *)
Theorem DOMString_primitives (NumberToString : number -> string)
    (V : Value) (s : string) (e : Exception) :
  converters_DOMString NumberToString (Str s) = Normal s /\
  (converters_DOMString NumberToString V = Throw e ->
   (exists description,
      V = Symbol description /\ e = ERR_INVALID_ARG_VALUE "value" V) \/
   (exists o, V = Object o)).
Proof.
  split; [reflexivity|].
  destruct V as [| | | | |description| |o]; try discriminate.
  - intros [= <-]. left. now exists description.
  - intros _. right. now exists o.
Qed.

Lemma DOMString_primitives_witness :
  converters_DOMString SampleHost.NumberToString (Symbol "id")
  = Throw (ERR_INVALID_ARG_VALUE "value" (Symbol "id")) /\
  ((exists description,
      Symbol "id" = Symbol description /\
      ERR_INVALID_ARG_VALUE "value" (Symbol "id")
      = ERR_INVALID_ARG_VALUE "value" (Symbol "id")) \/
   (exists o, Symbol "id" = Object o)).
Proof.
  split; [reflexivity|].
  apply (proj2 (DOMString_primitives SampleHost.NumberToString (Symbol "id") ""
                  (ERR_INVALID_ARG_VALUE "value" (Symbol "id")))).
  reflexivity.
Defined.

(** ** The enum converter *)

(** The enum converter only ever returns a member of the values, and
    that member is the string form of its argument. *)
Theorem createEnumConverter_sound (NumberToString : number -> string)
    (name : string) (values : list string) (V : Value) (opts : Options)
    (S : string) :
  createEnumConverter NumberToString name values V opts = Normal S ->
  S ∈ values /\ StringOf NumberToString V = Normal S.
Proof.
  unfold createEnumConverter.
  destruct (StringOf NumberToString V) as [S'|e]; [|discriminate].
  cbn [mbind Result_bind].
  destruct (bool_decide (S' ∈ list_to_set values)) eqn:Hmember;
    [|discriminate].
  intros [= <-]. apply bool_decide_eq_true in Hmember.
  split; [now apply elem_of_list_to_set in Hmember|reflexivity].
Qed.

Lemma createEnumConverter_sound_witness :
  "b"%string ∈ ["a"; "b"]%string /\
  StringOf SampleHost.NumberToString (Str "b") = Normal "b"%string.
Proof.
  apply (createEnumConverter_sound SampleHost.NumberToString "Color"
           ["a"; "b"]%string (Str "b") kEmptyObject "b").
  vm_compute. reflexivity.
Defined.

(** The enum converter depends on the values only as a set: their
    order and repetitions make no difference. *)
Theorem createEnumConverter_values_as_set (NumberToString : number -> string)
    (name : string) (values values' : list string) (V : Value)
    (opts : Options) :
  (forall s, s ∈ values <-> s ∈ values') ->
  createEnumConverter NumberToString name values V opts
  = createEnumConverter NumberToString name values' V opts.
Proof.
  intros Hsame. unfold createEnumConverter.
  destruct (StringOf NumberToString V) as [S|e]; [|reflexivity].
  cbn [mbind Result_bind].
  rewrite (bool_decide_ext (S ∈ (list_to_set values : gset string))
             (S ∈ (list_to_set values' : gset string)));
    [reflexivity|].
  rewrite !elem_of_list_to_set. apply Hsame.
Qed.

Lemma createEnumConverter_values_as_set_witness :
  createEnumConverter SampleHost.NumberToString "Color" ["a"; "b"]%string
    (Str "c") kEmptyObject
  = createEnumConverter SampleHost.NumberToString "Color"
      ["b"; "a"; "b"]%string (Str "c") kEmptyObject.
Proof.
  apply createEnumConverter_values_as_set.
  intros s. rewrite !elem_of_cons, !elem_of_nil. tauto.
Defined.

(** ** Runs of the sequence converter *)

Section SequenceRuns.

Context {T : Type}.
Variable converter : Value -> Options -> Result T.

Lemma sequenceLoop_yield (fuel : nat) (iter : Value) (opts : Options)
    (array : list T) (v : Value) (w : T) :
  stepYields iter (length array) v ->
  converter v (elementOptions opts (length array)) = Normal w ->
  sequenceLoop converter (S fuel) iter opts array (length array)
  = sequenceLoop converter fuel iter opts (array ++ [w]) (S (length array)).
Proof.
  intros (res & d & Hnext & Hres & Hdone & Hd & Hvalue) Hconv.
  simpl. rewrite Hnext.
  destruct res; try congruence; rewrite Hdone;
    (destruct d as [| |[|]| | | | |]; try congruence;
     rewrite Hvalue, Hconv; reflexivity).
Qed.

Lemma sequenceLoop_done (fuel : nat) (iter : Value) (opts : Options)
    (array : list T) (k : nat) :
  stepDone iter k ->
  sequenceLoop converter (S fuel) iter opts array k = Some (Normal array).
Proof.
  intros (res & Hnext & Hres & Hdone). simpl. rewrite Hnext.
  destruct res; try congruence; now rewrite Hdone.
Qed.

Lemma sequenceLoop_fail (fuel : nat) (iter : Value) (opts : Options)
    (array : list T) (e : Exception) :
  stepFails converter iter opts (length array) e ->
  sequenceLoop converter (S fuel) iter opts array (length array)
  = Some (Throw e).
Proof.
  intros [Hnext|(res & Hnext & Hres & Hrest)]; simpl; rewrite Hnext;
    [reflexivity|].
  destruct Hrest as [Hdone|(d & Hdone & Hd & Hrest)].
  { destruct res; try congruence; now rewrite Hdone. }
  assert (Hbody :
    match getProperty res "value" with
    | Normal v =>
        match converter v (elementOptions opts (length array)) with
        | Normal val =>
            sequenceLoop converter fuel iter opts (array ++ [val])
              (S (length array))
        | Throw e => Some (Throw e)
        end
    | Throw e => Some (Throw e)
    end = Some (Throw e)).
  { destruct Hrest as [Hvalue|(v & Hvalue & Hconv)].
    - now rewrite Hvalue.
    - now rewrite Hvalue, Hconv. }
  destruct res; try congruence; rewrite Hdone;
    (destruct d as [| |[|]| | | | |]; try congruence; exact Hbody).
Qed.

Lemma sequenceLoop_run (fuel : nat) (iter : Value) (opts : Options) :
  forall (vs : list Value) (ws array : list T),
    runsFrom converter iter opts (length array) vs ws ->
    sequenceLoop converter (length vs + fuel) iter opts array (length array)
    = sequenceLoop converter fuel iter opts (array ++ ws)
        (length (array ++ ws)) /\
    length ws = length vs.
Proof.
  induction vs as [|v vs IH]; intros [|w ws] array Hrun; try contradiction.
  - rewrite app_nil_r. split; reflexivity.
  - destruct Hrun as (Hyield & Hconv & Hrun).
    change (length (v :: vs) + fuel)%nat with (S (length vs + fuel)).
    rewrite (sequenceLoop_yield _ iter opts array v w Hyield Hconv).
    replace (S (length array)) with (length (array ++ [w]))
      by (rewrite length_app; simpl; lia).
    replace (S (length array)) with (length (array ++ [w])) in Hrun
      by (rewrite length_app; simpl; lia).
    destruct (IH ws (array ++ [w]) Hrun) as [Hloop Hlen].
    rewrite Hloop, <- app_assoc. split; [reflexivity|simpl; lia].
Qed.

Lemma createSequenceConverter_loop (fuel : nat) (V iter : Value)
    (opts : Options) :
  type V = "Object"%string -> callSymbolIterator V = Normal iter ->
  iter <> Undefined ->
  createSequenceConverter converter fuel V opts
  = sequenceLoop converter fuel iter opts [] 0.
Proof.
  intros Htype Hiter Hdefined. unfold createSequenceConverter.
  apply String.eqb_eq in Htype. rewrite Htype, Hiter. simpl.
  destruct iter; congruence.
Qed.

Lemma sequence_run_result (fuel : nat) (V iter : Value)
    (opts : Options) (vs : list Value) (ws : list T) :
  type V = "Object"%string -> callSymbolIterator V = Normal iter ->
  iter <> Undefined ->
  runsFrom converter iter opts 0 vs ws ->
  stepDone iter (length vs) ->
  createSequenceConverter converter (length vs + S fuel) V opts
  = Some (Normal ws) /\
  length ws = length vs.
Proof.
  intros Htype Hiter Hdefined Hrun Hdone.
  rewrite (createSequenceConverter_loop _ V iter opts Htype Hiter Hdefined).
  destruct (sequenceLoop_run (S fuel) iter opts vs ws [] Hrun) as [Hloop Hlen].
  change (length (@nil T)) with 0%nat in Hloop.
  rewrite Hloop. cbn [app]. split; [|exact Hlen].
  apply sequenceLoop_done. now rewrite Hlen.
Qed.

Lemma sequence_run_exception (fuel : nat) (V iter : Value)
    (opts : Options) (vs : list Value) (ws : list T) (e : Exception) :
  type V = "Object"%string -> callSymbolIterator V = Normal iter ->
  iter <> Undefined ->
  runsFrom converter iter opts 0 vs ws ->
  stepFails converter iter opts (length vs) e ->
  createSequenceConverter converter (length vs + S fuel) V opts
  = Some (Throw e).
Proof.
  intros Htype Hiter Hdefined Hrun Hfail.
  rewrite (createSequenceConverter_loop _ V iter opts Htype Hiter Hdefined).
  destruct (sequenceLoop_run (S fuel) iter opts vs ws [] Hrun) as [Hloop Hlen].
  change (length (@nil T)) with 0%nat in Hloop.
  rewrite Hloop. cbn [app]. apply sequenceLoop_fail. now rewrite Hlen.
Qed.

(** When the iterator yields the elements [vs] and then reports
    [done], and the element converter turns each element, called with
    the options of its index, into the corresponding element of [ws],
    the sequence converter returns [ws]: as many elements, in the same
    order.  An iterator that is done at once gives the empty
    sequence. *)
Theorem createSequenceConverter_complete (fuel : nat) (V iter : Value)
    (opts : Options) (vs : list Value) (ws : list T) :
  type V = "Object"%string -> callSymbolIterator V = Normal iter ->
  iter <> Undefined ->
  runsFrom converter iter opts 0 vs ws ->
  stepDone iter (length vs) ->
  createSequenceConverter converter (length vs + S fuel) V opts
  = Some (Normal ws) /\
  length ws = length vs.
Proof.
  intros Htype Hiter Hdefined Hrun Hdone.
  rewrite (createSequenceConverter_loop _ V iter opts Htype Hiter Hdefined).
  destruct (sequenceLoop_run (S fuel) iter opts vs ws [] Hrun) as [Hloop Hlen].
  change (length (@nil T)) with 0%nat in Hloop.
  rewrite Hloop. cbn [app]. split; [|exact Hlen].
  apply sequenceLoop_done. now rewrite Hlen.
Qed.

(** When the iterator has yielded [vs], all converted, and the next
    iteration raises an exception (in [next()], in reading [done] or
    [value] of its result, which fails on [null], or in the element
    converter), the sequence converter raises that same exception and
    returns nothing of what it had converted. *)
Theorem createSequenceConverter_failure (fuel : nat) (V iter : Value)
    (opts : Options) (vs : list Value) (ws : list T) (e : Exception) :
  type V = "Object"%string -> callSymbolIterator V = Normal iter ->
  iter <> Undefined ->
  runsFrom converter iter opts 0 vs ws ->
  stepFails converter iter opts (length vs) e ->
  createSequenceConverter converter (length vs + S fuel) V opts
  = Some (Throw e).
Proof.
  intros Htype Hiter Hdefined Hrun Hfail.
  rewrite (createSequenceConverter_loop _ V iter opts Htype Hiter Hdefined).
  destruct (sequenceLoop_run (S fuel) iter opts vs ws [] Hrun) as [Hloop Hlen].
  change (length (@nil T)) with 0%nat in Hloop.
  rewrite Hloop. cbn [app]. apply sequenceLoop_fail. now rewrite Hlen.
Qed.

(** On an iterator that never reports [done] and whose elements all
    convert, the loop of the sequence converter does not end: no number
    of iterations gives a result. *)
Theorem createSequenceConverter_endless (V iter : Value) (opts : Options) :
  type V = "Object"%string -> callSymbolIterator V = Normal iter ->
  iter <> Undefined ->
  (forall i, stepAdvances converter iter opts i) ->
  forall fuel, createSequenceConverter converter fuel V opts = None.
Proof.
  intros Htype Hiter Hdefined Hsteps fuel.
  rewrite (createSequenceConverter_loop _ V iter opts Htype Hiter Hdefined).
  destruct (sequenceLoop_advance converter fuel 0 iter opts [])
    as (array' & _ & Hloop); [intros i _; apply Hsteps|].
  rewrite Nat.add_0_r in Hloop. change (length (@nil T)) with 0%nat in Hloop.
  rewrite Hloop. reflexivity.
Qed.

End SequenceRuns.

Lemma createSequenceConverter_complete_witness :
  createSequenceConverter (fun v _ => Normal (converters_any v)) 3
    (SampleHost.iterable
       (SampleHost.iteratorOf
          [SampleHost.valueResult (Str "a"); SampleHost.valueResult (Str "b")]
          SampleHost.doneResult))
    kEmptyObject
  = Some (Normal [Str "a"; Str "b"]) /\
  createSequenceConverter (fun v _ => Normal (converters_any v)) 1
    (SampleHost.iterable (SampleHost.iteratorOf [] SampleHost.doneResult))
    kEmptyObject
  = Some (Normal []).
Proof.
  split.
  - apply (createSequenceConverter_complete
             (fun v _ => Normal (converters_any v)) 0 _
             (SampleHost.iteratorOf
                [SampleHost.valueResult (Str "a");
                 SampleHost.valueResult (Str "b")]
                SampleHost.doneResult)
             kEmptyObject [Str "a"; Str "b"] [Str "a"; Str "b"]);
      try reflexivity; try discriminate.
    + repeat split;
        try (eexists _, (Boolean false);
             repeat split; try reflexivity; discriminate).
    + eexists. repeat split; try reflexivity. discriminate.
  - apply (createSequenceConverter_complete
             (fun v _ => Normal (converters_any v)) 0 _
             (SampleHost.iteratorOf [] SampleHost.doneResult)
             kEmptyObject [] []);
      try reflexivity; try discriminate.
    eexists. repeat split; try reflexivity. discriminate.
Defined.

Lemma createSequenceConverter_failure_witness :
  createSequenceConverter (fun v _ => Normal (converters_any v)) 2
    (SampleHost.iterable
       (SampleHost.iteratorOf [SampleHost.valueResult (Str "a")] Null))
    kEmptyObject
  = Some (Throw (HostTypeError "Cannot read properties of null or undefined")).
Proof.
  apply (createSequenceConverter_failure
           (fun v _ => Normal (converters_any v)) 0 _
           (SampleHost.iteratorOf [SampleHost.valueResult (Str "a")] Null)
           kEmptyObject [Str "a"] [Str "a"]);
    try reflexivity; try discriminate.
  - repeat split.
    eexists _, (Boolean false). repeat split; try reflexivity; discriminate.
  - right. exists Null. repeat split; [discriminate|]. left. reflexivity.
Defined.

Lemma createSequenceConverter_endless_witness :
  createSequenceConverter (fun v _ => Normal (converters_any v)) 50
    (SampleHost.iterable
       (SampleHost.iteratorOf [] (SampleHost.valueResult (Str "a"))))
    kEmptyObject
  = None.
Proof.
  apply (createSequenceConverter_endless
           (fun v _ => Normal (converters_any v)) _
           (SampleHost.iteratorOf [] (SampleHost.valueResult (Str "a")))
           kEmptyObject); try reflexivity; try discriminate.
  intros i.
  exists (SampleHost.valueResult (Str "a")), (Boolean false), (Str "a"),
    (Str "a").
  repeat split; try discriminate.
  simpl. now destruct i.
Defined.

(** ** Sequences of enum values and of interface objects *)




Lemma interfaces_run (implements : Value -> Value -> bool) (name : string)
    (I iter : Value) (opts : Options) :
  forall (vs : list Value) (i : nat),
    yieldsFrom iter i vs ->
    Forall (fun v => implements I v = true) vs ->
    runsFrom (createInterfaceConverter implements name I) iter opts i vs vs.
Proof.
  induction vs as [|v vs IH]; intros i Hyields Hall; [exact Logic.I|].
  destruct Hyields as [Hyield Hyields].
  apply Forall_cons in Hall as [Hv Hall].
  split; [exact Hyield|]. split; [|now apply IH].
  unfold createInterfaceConverter. now rewrite Hv.
Qed.

(** A sequence of objects that all implement the interface is returned
    element for element, the values themselves in their order; the
    first element that does not implement it raises
    [ERR_INVALID_ARG_TYPE] for the interface name and that element,
    under the label made of the caller's context and the index of the
    element in brackets, "undefined" standing for an absent context. *)
Theorem sequence_of_interfaces (implements : Value -> Value -> bool)
    (name : string) (I : Value) (fuel : nat) (V iter : Value)
    (opts : Options) (vs : list Value) (v : Value) :
  type V = "Object"%string -> callSymbolIterator V = Normal iter ->
  iter <> Undefined ->
  yieldsFrom iter 0 vs ->
  Forall (fun v => implements I v = true) vs ->
  (stepDone iter (length vs) ->
   createSequenceConverter (createInterfaceConverter implements name I)
     (length vs + S fuel) V opts = Some (Normal vs)) /\
  (stepYields iter (length vs) v -> implements I v = false ->
   createSequenceConverter (createInterfaceConverter implements name I)
     (length vs + S fuel) V opts
   = Some (Throw (ERR_INVALID_ARG_TYPE
                    (match context opts with Some c => c | None => "undefined" end
                       +:+ "[" +:+ decimal (length vs) +:+ "]")
                    name v))).
Proof.
  intros Htype Hiter Hdefined Hyields Hall.
  pose proof (interfaces_run implements name I iter opts vs 0 Hyields Hall)
    as Hrun.
  split.
  - intros Hdone.
    now apply (sequence_run_result _ fuel V iter opts vs vs).
  - intros Hyield Hv.
    apply (sequence_run_exception _ fuel V iter opts vs vs);
      try assumption.
    destruct Hyield as (res & d & Hnext & Hres & Hdone & Hd & Hvalue).
    right. exists res. repeat split; try assumption.
    right. exists d. repeat split; try assumption.
    right. exists v. split; [exact Hvalue|].
    unfold createInterfaceConverter. now rewrite Hv.
Qed.

Lemma sequence_of_interfaces_witness :
  createSequenceConverter
    (createInterfaceConverter
       (fun _ V => match V with Object _ => true | _ => false end)
       "Blob" Null)
    2
    (SampleHost.iterable
       (SampleHost.iteratorOf
          [SampleHost.valueResult SampleHost.doneResult;
           SampleHost.valueResult (Str "a")]
          SampleHost.doneResult))
    kEmptyObject
  = Some (Throw (ERR_INVALID_ARG_TYPE "undefined[1]" "Blob" (Str "a"))).
Proof.
  assert (Hyield0 :
    stepYields
      (SampleHost.iteratorOf
         [SampleHost.valueResult SampleHost.doneResult;
          SampleHost.valueResult (Str "a")]
         SampleHost.doneResult) 0 SampleHost.doneResult).
  { eexists _, (Boolean false). repeat split; try reflexivity; discriminate. }
  assert (Hyield1 :
    stepYields
      (SampleHost.iteratorOf
         [SampleHost.valueResult SampleHost.doneResult;
          SampleHost.valueResult (Str "a")]
         SampleHost.doneResult) 1 (Str "a")).
  { eexists _, (Boolean false). repeat split; try reflexivity; discriminate. }
  assert (Hall :
    Forall (fun v => match v with Object _ => true | _ => false end = true)
      [SampleHost.doneResult]) by repeat constructor.
  assert (Hdefined :
    SampleHost.iteratorOf
      [SampleHost.valueResult SampleHost.doneResult;
       SampleHost.valueResult (Str "a")]
      SampleHost.doneResult <> Undefined) by discriminate.
  exact (proj2 (sequence_of_interfaces
                  (fun _ V => match V with Object _ => true | _ => false end)
                  "Blob" Null 0
                  (SampleHost.iterable
                     (SampleHost.iteratorOf
                        [SampleHost.valueResult SampleHost.doneResult;
                         SampleHost.valueResult (Str "a")]
                        SampleHost.doneResult))
                  (SampleHost.iteratorOf
                     [SampleHost.valueResult SampleHost.doneResult;
                      SampleHost.valueResult (Str "a")]
                     SampleHost.doneResult)
                  kEmptyObject [SampleHost.doneResult]
                  (Str "a") eq_refl eq_refl Hdefined (conj Hyield0 Logic.I)
                  Hall)
           Hyield1 eq_refl).
Defined.
